(** * firearch: the schema component ([src/schema.js])

    A shallow embedding of the [Schema] class: type dispatch for
    validation and coercion, document build, reference collapsing,
    relationship and virtual-field resolution and the four registries,
    followed by the properties established about them. *)

From Stdlib Require Import String Ascii List ZArith Bool Lia DecimalString.
Import ListNotations.
Open Scope string_scope.

Set Warnings "-register-all".

(** ** JavaScript values

    The values a document can hold.  Numbers are restricted to integers
    (no claim depends on floating point); functions, symbols and [Date]
    instances are outside the model.  [VDelete] is the sentinel returned
    by [Firestore.FieldValue.delete()]. *)

Inductive value : Type :=
| VUndefined
| VNull
| VBool (b : bool)
| VNum (n : Z)
| VStr (s : string)
| VArr (elems : list value)
| VObj (props : list (string * value))
| VDelete.

(** A plain object: its own properties in enumeration order.  Lookup
    takes the first entry of a key, so that a list behaves as an object
    whatever entries it repeats. *)
Definition obj := list (string * value).

Inductive jstype := TUndefined | TObject | TBoolean | TNumber | TString.

Definition typeof (v : value) : jstype :=
  match v with
  | VUndefined => TUndefined
  | VNull => TObject
  | VBool _ => TBoolean
  | VNum _ => TNumber
  | VStr _ => TString
  | VArr _ => TObject
  | VObj _ => TObject
  | VDelete => TObject
  end.

Definition is_undefined (v : value) : bool :=
  match v with VUndefined => true | _ => false end.

Definition is_object (v : value) : bool :=
  match typeof v with TObject => true | _ => false end.

(** Truthiness, as tested by [if (object._c)] and [object[path] && ...]. *)
Definition truthy (v : value) : bool :=
  match v with
  | VUndefined | VNull => false
  | VBool b => b
  | VNum n => negb (n =? 0)%Z
  | VStr s => negb (s =? EmptyString)
  | VArr _ | VObj _ | VDelete => true
  end.

Section Properties.
Context {A : Type}.

(** [o.hasOwnProperty(k)] *)
Fixpoint lookup (k : string) (o : list (string * A)) : option A :=
  match o with
  | [] => None
  | (k', v) :: rest => if k' =? k then Some v else lookup k rest
  end.

Definition hasOwnProperty (k : string) (o : list (string * A)) : bool :=
  match lookup k o with Some _ => true | None => false end.

(** [o[k] = v]: overwrite in place, or append a new property. *)
Fixpoint set (k : string) (v : A) (o : list (string * A)) : list (string * A) :=
  match o with
  | [] => [(k, v)]
  | (k', v') :: rest =>
      if k' =? k then (k, v) :: rest else (k', v') :: set k v rest
  end.

(** [delete o[k]] *)
Definition delete (k : string) (o : list (string * A)) : list (string * A) :=
  filter (fun p => negb (fst p =? k)) o.

Definition keys (o : list (string * A)) : list string := map fst o.

(** The keys visited by [for (const key in o)]: each key once, at the
    position of its first entry. *)
Fixpoint for_in (o : list (string * A)) : list string :=
  match o with
  | [] => []
  | (k, _) :: rest => k :: filter (fun k' => negb (k' =? k)) (for_in rest)
  end.
End Properties.

(** [o[k]] for a plain object without inherited properties. *)
Definition get (k : string) (o : obj) : value :=
  match lookup k o with Some v => v | None => VUndefined end.

(** ** String conversion, as performed by a template literal

    [to_string] is the conversion of the values that have the default
    rendering (see [renders] below): a number within the safe integer
    range prints its digits, a plain object prints [[object Object]].
    For an object that carries a [toString] property of its own, which
    is never callable here, the conversion throws instead, and a number
    from [1e21] on prints in exponent form; statements about the text
    of a message assume [renders]. *)

Definition string_of_Z (n : Z) : string := NilZero.string_of_int (Z.to_int n).

Fixpoint to_string (v : value) : string :=
  match v with
  | VUndefined => "undefined"
  | VNull => "null"
  | VBool true => "true"
  | VBool false => "false"
  | VNum n => string_of_Z n
  | VStr s => s
  | VArr elems =>
      String.concat ","
        (map (fun e => match e with
                       | VUndefined | VNull => EmptyString
                       | _ => to_string e
                       end) elems)
  | VObj _ => "[object Object]"
  | VDelete => "[object Object]"
  end.

(** The characters of a string, each as a string of length one. *)
Definition characters (s : string) : list value :=
  map (fun c => VStr (String c EmptyString)) (list_ascii_of_string s).

(** [hay.includes(needle)] *)
Fixpoint includes (needle hay : string) : bool :=
  if String.prefix needle hay then true
  else match hay with
       | EmptyString => false
       | String _ rest => includes needle rest
       end.

(** ** Errors and outcomes *)

Inductive error :=
| Error (message : string)
| TypeError (message : string).

Definition message (e : error) : string :=
  match e with Error m | TypeError m => m end.

Inductive outcome (A : Type) :=
| Return (a : A)
| Throw (e : error).
Arguments Return {A} a.
Arguments Throw {A} e.

(** The text of the engine's own [TypeError]s is not fixed by the
    language; the model uses V8's wording. *)
Definition cannot_read (prop base : string) : error :=
  TypeError ("Cannot read properties of " ++ base
               ++ " (reading '" ++ prop ++ "')").

Definition not_iterable : error := TypeError "object[key] is not iterable".

(** ** Field definitions

    The value stored under a key of the field-definition map: one of the
    four constructors [String], [Boolean], [Date], [Number], a plain
    object (a reference [{ref: name}] or a free-form nested object), an
    array of definitions, or anything on which no branch of the dispatch
    fires ([undefined] for an absent key, a primitive).  [null] is not a
    definition. *)

Inductive fielddef : Type :=
| DString
| DBoolean
| DDate
| DNumber
| DObject (props : list (string * value))
| DArray (elems : list fielddef)
| DOther.

(** [fd === String], ... *)
Definition is_String (fd : fielddef) : bool :=
  match fd with DString => true | _ => false end.
Definition is_Boolean (fd : fielddef) : bool :=
  match fd with DBoolean => true | _ => false end.
Definition is_Date (fd : fielddef) : bool :=
  match fd with DDate => true | _ => false end.
Definition is_Number (fd : fielddef) : bool :=
  match fd with DNumber => true | _ => false end.

(** [typeof fd === 'object'] *)
Definition typeof_object (fd : fielddef) : bool :=
  match fd with DObject _ | DArray _ => true | _ => false end.

(** [Object.keys(fd).includes('ref')], for [fd] of type object: the keys
    of an array are its indices, never ['ref']. *)
Definition keys_include_ref (fd : fielddef) : bool :=
  match fd with
  | DObject props => existsb (fun k => k =? "ref") (keys props)
  | _ => false
  end.

(** [fd instanceof Array] *)
Definition instanceof_Array (fd : fielddef) : bool :=
  match fd with DArray _ => true | _ => false end.

(** [fd[0]] *)
Definition first (fd : fielddef) : fielddef :=
  match fd with
  | DArray (d :: _) => d
  | _ => DOther
  end.

(** [typeof fd === 'object' && Object.keys(fd).includes('ref')] *)
Definition is_ref (fd : fielddef) : bool :=
  typeof_object fd && keys_include_ref fd.

(** ** The collaborators of the schema *)

(** The interface of a field type ([./types/string] and its siblings,
    which are not part of the sources: every definition below takes the
    five implementations as parameters). *)
Record FieldType := {
  validate : value -> bool;
  validateArray : value -> bool;
  getValue : value -> value;
  getValueArray : value -> value
}.

Definition fieldDefs := list (string * fielddef).

(** A model, as far as the schema uses it: its name, the field
    definitions of its own schema, and its two queries, which resolve to
    a value or reject with an error. *)
Record Model := {
  _modelName : string;
  _modelSchema_fieldDefs : fieldDefs;
  findById : value -> bool -> outcome value;
  find : string -> string -> value -> bool -> outcome value
}.

Module Populate.
Record t := { path : string; model : string }.
End Populate.

Module VirtualDef.
Record t := { ref : string; localField : string; foreignField : string }.
End VirtualDef.

Module Virtual.
Record t := { fieldName : string; virtualDef : VirtualDef.t }.
End Virtual.

(** Hook callbacks are opaque: a callback is identified by a handle. *)
Definition callback := nat.

Module PreOp.
Record t := { operation : string; cb : callback }.
End PreOp.

Module Upload.
Record t := { storagePath : string; path : string }.
End Upload.

(** The fields of a [Schema] instance ([_firestoreInstance] and
    [_object], which no method reads, are left out). *)
Record Schema := {
  _fieldDefs : fieldDefs;
  _preOps : list PreOp.t;
  _model : option Model;
  _models : option (list Model);
  _populates : list Populate.t;
  _virtuals : list Virtual.t;
  _uploads : list Upload.t
}.

(** [new Schema(fieldDefs)] *)
Definition new_Schema (defs : fieldDefs) : Schema :=
  {| _fieldDefs := defs; _preOps := []; _model := None; _models := None;
     _populates := []; _virtuals := []; _uploads := [] |}.

Definition _setModel (m : Model) (s : Schema) : Schema :=
  {| _fieldDefs := _fieldDefs s; _preOps := _preOps s; _model := Some m;
     _models := _models s; _populates := _populates s;
     _virtuals := _virtuals s; _uploads := _uploads s |}.

Definition _setModels (ms : list Model) (s : Schema) : Schema :=
  {| _fieldDefs := _fieldDefs s; _preOps := _preOps s; _model := _model s;
     _models := Some ms; _populates := _populates s;
     _virtuals := _virtuals s; _uploads := _uploads s |}.

(** [defs[key]] *)
Definition def_of (defs : fieldDefs) (key : string) : fielddef :=
  match lookup key defs with Some fd => fd | None => DOther end.

(** ** The world a call runs in

    The document handed to a method is shared with the caller and
    mutated in place; [console] collects the warnings and [requests] the
    queries issued to models. *)

Inductive request :=
| FindById (modelName : string) (id : value) (nested : bool)
| Find (modelName field op : string) (v : value) (nested : bool).

Record world := {
  object : obj;
  console : list string;
  requests : list request
}.

Definition M (A : Type) : Type := world -> outcome A * world.

Definition ret {A} (a : A) : M A := fun w => (Return a, w).

Definition throw {A} (e : error) : M A := fun w => (Throw e, w).

Definition bind {A B} (m : M A) (k : A -> M B) : M B :=
  fun w => match m w with
           | (Return a, w') => k a w'
           | (Throw e, w') => (Throw e, w')
           end.

(** [try { m } catch (error) { handler }] *)
Definition try_catch {A} (m : M A) (handler : error -> M A) : M A :=
  fun w => match m w with
           | (Return a, w') => (Return a, w')
           | (Throw e, w') => handler e w'
           end.

Definition lift {A} (o : outcome A) : M A := fun w => (o, w).

Definition read_object : M obj := fun w => (Return (object w), w).

(** [object[key] = v] *)
Definition assign (key : string) (v : value) : M unit :=
  fun w => (Return tt, {| object := set key v (object w);
                          console := console w;
                          requests := requests w |}).

(** [console.warn(text)] *)
Definition console_warn (text : string) : M unit :=
  fun w => (Return tt, {| object := object w;
                          console := (console w ++ [text])%list;
                          requests := requests w |}).

Definition issue (r : request) : M unit :=
  fun w => (Return tt, {| object := object w;
                          console := console w;
                          requests := (requests w ++ [r])%list |}).

Declare Scope js_scope.
Delimit Scope js_scope with js.
Notation "x <- m ;; k" := (bind m (fun x => k))
  (at level 61, m at next level, right associativity) : js_scope.
Notation "m ;; k" := (bind m (fun _ => k))
  (at level 61, right associativity) : js_scope.

(** Sequencing of outcomes, for code that throws but touches no state. *)
Definition and_then {A B} (o : outcome A) (k : A -> outcome B) : outcome B :=
  match o with
  | Return a => k a
  | Throw e => Throw e
  end.

(** ** The methods of [Schema] *)

Section SchemaMethods.

(** The five field types required at the top of the module. *)
Variables StringType BooleanType DateType NumberType RefType : FieldType.

Variable this : Schema.

Local Open Scope js_scope.

(** [this._model._modelName], which throws on a schema that has no
    model attached yet ([_model] is [null] after construction). *)
Definition this_modelName : outcome string :=
  match _model this with
  | Some m => Return (_modelName m)
  | None => Throw (cannot_read "_modelName" "null")
  end.

Definition invalid_text (name key expected : string) (v : value) : string :=
  name ++ " property '" ++ key ++ "' is invalid. Expected " ++ expected
       ++ ". Value: " ++ to_string v ++ ".".

(** [valid = T.validate(value); if (!valid) throw new Error(...)] *)
Definition checked (key expected : string) (v : value) (valid : bool)
  : outcome bool :=
  if valid then Return valid
  else and_then this_modelName
         (fun name => Throw (Error (invalid_text name key expected v))).

Definition _validateField (key : string) (v : value) : outcome bool :=
  let fd := def_of (_fieldDefs this) key in
  let valid := false in
  and_then (if is_String fd
            then checked key "String" v (validate StringType v)
            else Return valid) (fun valid =>
  and_then (if is_Boolean fd
            then checked key "Boolean" v (validate BooleanType v)
            else Return valid) (fun valid =>
  and_then (if is_Date fd
            then checked key "Date" v (validate DateType v)
            else Return valid) (fun valid =>
  and_then (if is_Number fd
            then checked key "Number" v (validate NumberType v)
            else Return valid) (fun valid =>
  and_then (if is_ref fd
            then checked key "Document ID" v (validate RefType v)
            else Return valid) (fun valid =>
  and_then (if instanceof_Array fd then
              and_then (if is_String (first fd)
                        then checked key "Array<String>" v
                               (validateArray StringType v)
                        else Return valid) (fun valid =>
              if is_ref (first fd)
              then checked key "Array<Document ID>" v
                     (validateArray RefType v)
              else Return valid)
            else Return valid) (fun valid =>
  let valid := if typeof_object fd then true else valid in
  Return valid)))))).

Definition _getValue (key : string) (v : value) : value :=
  let fd := def_of (_fieldDefs this) key in
  let retVal := VNull in
  let retVal := if is_String fd then getValue StringType v else retVal in
  let retVal := if is_Boolean fd then getValue BooleanType v else retVal in
  let retVal := if is_Date fd then getValue DateType v else retVal in
  let retVal := if is_Number fd then getValue NumberType v else retVal in
  let retVal := if is_ref fd then getValue RefType v else retVal in
  let retVal :=
    if instanceof_Array fd then
      let retVal := if is_String (first fd)
                    then getValueArray StringType v else retVal in
      let retVal := if is_ref (first fd)
                    then getValueArray RefType v else retVal in
      retVal
    else retVal in
  let retVal := if typeof_object fd then v else retVal in
  retVal.

(** [value._id], read on a value whose [typeof] is ['object']. *)
Definition read_id (v : value) : outcome value :=
  match v with
  | VNull => Throw (cannot_read "_id" "null")
  | VObj props => Return (get "_id" props)
  | _ => Return VUndefined
  end.

(** The values produced by [for (const value of v)]: the elements of an
    array, the characters of a string; nothing else iterates. *)
Definition iterate (v : value) : outcome (list value) :=
  match v with
  | VArr elems => Return elems
  | VStr s => Return (characters s)
  | _ => Throw not_iterable
  end.

(** The body of the loop of [_depopulate], with the array under
    construction as accumulator. *)
Fixpoint depopulate_elems (elems depopulated : list value)
  : outcome (list value) :=
  match elems with
  | [] => Return depopulated
  | v :: rest =>
      and_then (if is_object v
                then and_then (read_id v)
                       (fun id => Return (depopulated ++ [id])%list)
                else Return (depopulated ++ [v])%list)
        (fun depopulated => depopulate_elems rest depopulated)
  end.

Definition _depopulate (key : string) : M unit :=
  let fd := def_of (_fieldDefs this) key in
  let isRefArray := instanceof_Array fd && is_ref (first fd) in
  let isRef := is_ref fd in
  (if isRefArray then
     o <- read_object ;;
     elems <- lift (iterate (get key o)) ;;
     depopulated <- lift (depopulate_elems elems []) ;;
     assign key (VArr depopulated)
   else ret tt) ;;
  (if isRef then
     o <- read_object ;;
     let v := get key o in
     if is_object v then
       id <- lift (read_id v) ;;
       assign key id
     else assign key v
   else ret tt).

Definition processing_text (name inner : string) : string :=
  "Error processing " ++ name ++ ". Operation Failed. Inner Exception: "
    ++ inner.

(** One round of the loop of [_build].  [object.hasOwnProperty(key)] is
    the inherited method: a source that carries a property named
    [hasOwnProperty] of its own (see [plain] below) makes the call
    itself throw, outside the [try]; statements about how [_build]
    fails assume a [plain] source. *)
Definition build_field (includeDeletes cleanRefs : bool) (key : string)
    (retObject : obj) : M obj :=
  o <- read_object ;;
  if hasOwnProperty key o && is_undefined (get key o) && includeDeletes
  then ret (set key VDelete retObject)
  else if hasOwnProperty key o && negb (is_undefined (get key o)) then
    try_catch
      ((if cleanRefs then _depopulate key else ret tt) ;;
       o <- read_object ;;
       _ <- lift (_validateField key (get key o)) ;;
       o <- read_object ;;
       ret (set key (_getValue key (get key o)) retObject))
      (fun error =>
         name <- lift this_modelName ;;
         console_warn (processing_text name (message error)) ;;
         name <- lift this_modelName ;;
         throw (Error (processing_text name (message error))))
  else ret retObject.

Fixpoint build_fields (includeDeletes cleanRefs : bool) (ks : list string)
    (retObject : obj) : M obj :=
  match ks with
  | [] => ret retObject
  | key :: rest =>
      retObject <- build_field includeDeletes cleanRefs key retObject ;;
      build_fields includeDeletes cleanRefs rest retObject
  end.

Definition _build (removeId includeDeletes cleanRefs : bool) : M obj :=
  let retObject := [] in
  retObject <- build_fields includeDeletes cleanRefs
                 (for_in (_fieldDefs this)) retObject ;;
  o <- read_object ;;
  let retObject := set "_id" (get "_id" o) retObject in
  let retObject := if truthy (get "_c" o)
                   then set "_c" (get "_c" o) retObject else retObject in
  let retObject := if truthy (get "_u" o)
                   then set "_u" (get "_u" o) retObject else retObject in
  let retObject := if removeId then delete "_id" retObject else retObject in
  ret retObject.

(** *** Relationship and virtual-field resolution *)

(** [this._models], [null] until a registry is attached. *)
Definition this_models : outcome (list Model) :=
  match _models this with
  | Some ms => Return ms
  | None => Throw (cannot_read "find" "null")
  end.

(** [this._model._modelSchema._fieldDefs] *)
Definition this_model_fieldDefs : outcome fieldDefs :=
  match _model this with
  | Some m => Return (_modelSchema_fieldDefs m)
  | None => Throw (cannot_read "_modelSchema" "null")
  end.

(** [models.find(m => m._modelName === name)]: [None] is [undefined]. *)
Definition find_model (models : list Model) (name : string) : option Model :=
  List.find (fun m => _modelName m =? name) models.

(** [await model.findById(id, nested)] *)
Definition call_findById (model : option Model) (id : value) (nested : bool)
  : M value :=
  match model with
  | None => throw (cannot_read "findById" "undefined")
  | Some m =>
      issue (FindById (_modelName m) id nested) ;;
      lift (findById m id nested)
  end.

(** [await model.find(field, op, v, nested)] *)
Definition call_find (model : option Model) (field op : string) (v : value)
    (nested : bool) : M value :=
  match model with
  | None => throw (cannot_read "find" "undefined")
  | Some m =>
      issue (Find (_modelName m) field op v nested) ;;
      lift (find m field op v nested)
  end.

(** [v.length] *)
Definition length_of (v : value) : value :=
  match v with
  | VArr elems => VNum (Z.of_nat (List.length elems))
  | VStr s => VNum (Z.of_nat (String.length s))
  | VObj props => get "length" props
  | _ => VUndefined
  end.

(** [len > 0], for the lengths of arrays and strings; on a plain
    object that carries a [length] property the comparison is modelled
    for numbers and booleans only. *)
Definition greater_than_zero (len : value) : bool :=
  match len with
  | VNum n => (0 <? n)%Z
  | VBool b => b
  | _ => false
  end.

(** [array[0], ..., array[array.length - 1]] *)
Definition indexed (array : value) : list value :=
  match array with
  | VArr elems => elems
  | VStr s => characters s
  | VObj props =>
      let count := match get "length" props with
                   | VNum n => Z.to_nat n
                   | VBool true => 1%nat
                   | _ => 0%nat
                   end in
      map (fun i => get (NilZero.string_of_uint (Nat.to_uint i)) props)
        (seq 0 count)
  | _ => []
  end.

(** Modelled from the spec: [asyncForEach] of [./utils], which is not
    part of the sources.  The callback is awaited on one element after
    the other, in index order; [acc] stands for the variables the
    callback closes over. *)
Fixpoint asyncForEach {A} (array : list value) (callback : value -> A -> M A)
    (acc : A) : M A :=
  match array with
  | [] => ret acc
  | r :: rest =>
      acc <- callback r acc ;;
      asyncForEach rest callback acc
  end.

(** One round of the loop of [_doPopulates]. *)
Definition populate_one (populate : Populate.t) : M unit :=
  let path := Populate.path populate in
  let modelName := Populate.model populate in
  models <- lift this_models ;;
  let model := find_model models modelName in
  defs <- lift this_model_fieldDefs ;;
  if instanceof_Array (def_of defs path) then
    let results := [] in
    o <- read_object ;;
    results <-
      (if truthy (get path o) && greater_than_zero (length_of (get path o))
       then asyncForEach (indexed (get path o))
              (fun r results =>
                 if negb (is_undefined r) then
                   res <- call_findById model r true ;;
                   ret (results ++ [res])%list
                 else ret results)
              results
       else ret results) ;;
    assign path (VArr results)
  else
    o <- read_object ;;
    if negb (is_undefined (get path o)) then
      res <- call_findById model (get path o) true ;;
      assign path res
    else ret tt.

Fixpoint populate_each (populates : list Populate.t) : M unit :=
  match populates with
  | [] => ret tt
  | populate :: rest => populate_one populate ;; populate_each rest
  end.

Definition _doPopulates : M obj :=
  populate_each (_populates this) ;;
  read_object.

(** One round of the loop of [_doVirtuals]. *)
Definition virtual_one (virtual : Virtual.t) : M unit :=
  let fieldName := Virtual.fieldName virtual in
  let virtualDef := Virtual.virtualDef virtual in
  models <- lift this_models ;;
  let model := find_model models (VirtualDef.ref virtualDef) in
  o <- read_object ;;
  res <- call_find model (VirtualDef.foreignField virtualDef) "=="
           (get (VirtualDef.localField virtualDef) o) true ;;
  assign fieldName res.

Fixpoint virtual_each (virtuals : list Virtual.t) : M unit :=
  match virtuals with
  | [] => ret tt
  | virtual :: rest => virtual_one virtual ;; virtual_each rest
  end.

Definition _doVirtuals : M obj :=
  virtual_each (_virtuals this) ;;
  read_object.

End SchemaMethods.

(** ** Registration *)

Definition with_populates (l : list Populate.t) (s : Schema) : Schema :=
  {| _fieldDefs := _fieldDefs s; _preOps := _preOps s; _model := _model s;
     _models := _models s; _populates := l;
     _virtuals := _virtuals s; _uploads := _uploads s |}.

Definition with_preOps (l : list PreOp.t) (s : Schema) : Schema :=
  {| _fieldDefs := _fieldDefs s; _preOps := l; _model := _model s;
     _models := _models s; _populates := _populates s;
     _virtuals := _virtuals s; _uploads := _uploads s |}.

Definition with_virtuals (l : list Virtual.t) (s : Schema) : Schema :=
  {| _fieldDefs := _fieldDefs s; _preOps := _preOps s; _model := _model s;
     _models := _models s; _populates := _populates s;
     _virtuals := l; _uploads := _uploads s |}.

Definition with_uploads (l : list Upload.t) (s : Schema) : Schema :=
  {| _fieldDefs := _fieldDefs s; _preOps := _preOps s; _model := _model s;
     _models := _models s; _populates := _populates s;
     _virtuals := _virtuals s; _uploads := l |}.

(** [if (!registry.find(p => key(p) === k)) registry.push(entry)]: the
    entries are objects, so that a found entry is truthy. *)
Definition push_unless_found {A} (key : A -> string) (entry : A)
    (registry : list A) : list A :=
  match List.find (fun p => key p =? key entry) registry with
  | Some _ => registry
  | None => (registry ++ [entry])%list
  end.

Definition populate (def : Populate.t) (s : Schema) : Schema :=
  with_populates (push_unless_found Populate.path def (_populates s)) s.

Definition pre (operation : string) (cb : callback) (s : Schema) : Schema :=
  with_preOps
    (push_unless_found PreOp.operation
       {| PreOp.operation := operation; PreOp.cb := cb |} (_preOps s)) s.

Definition virtual (fieldName : string) (virtualDef : VirtualDef.t)
    (s : Schema) : Schema :=
  with_virtuals
    (push_unless_found Virtual.fieldName
       {| Virtual.fieldName := fieldName; Virtual.virtualDef := virtualDef |}
       (_virtuals s)) s.

Definition upload (storagePath path : string) (s : Schema) : Schema :=
  with_uploads
    (push_unless_found Upload.path
       {| Upload.storagePath := storagePath; Upload.path := path |}
       (_uploads s)) s.

(** The calls that change a schema. *)
Inductive call :=
| Call_setModel (m : Model)
| Call_setModels (ms : list Model)
| Call_populate (def : Populate.t)
| Call_pre (operation : string) (cb : callback)
| Call_virtual (fieldName : string) (virtualDef : VirtualDef.t)
| Call_upload (storagePath path : string).

Definition perform (c : call) (s : Schema) : Schema :=
  match c with
  | Call_setModel m => _setModel m s
  | Call_setModels ms => _setModels ms s
  | Call_populate def => populate def s
  | Call_pre operation cb => pre operation cb s
  | Call_virtual fieldName virtualDef => virtual fieldName virtualDef s
  | Call_upload storagePath path => upload storagePath path s
  end.

(** The schemas a program can build: a constructed schema, changed by
    any sequence of calls. *)
Inductive reachable : Schema -> Prop :=
| reachable_new defs : reachable (new_Schema defs)
| reachable_call c s : reachable s -> reachable (perform c s).

(** ** A concrete set of field types

    Modelled from the spec: the five field types of [./types], which are
    not part of the sources.  Each offers a single-value predicate, a
    uniform-array predicate and the two coercions; a reference is valid
    when it has the shape of an identity string.  They serve as the
    concrete instance at which the general statements are exercised. *)

Module Sample.

Definition uniform (p : value -> bool) (v : value) : bool :=
  match v with
  | VArr elems => forallb p elems
  | _ => false
  end.

Definition elementwise (f : value -> value) (v : value) : value :=
  match v with
  | VArr elems => VArr (map f elems)
  | _ => v
  end.

Definition scalar (p : value -> bool) (f : value -> value) : FieldType :=
  {| validate := p; validateArray := uniform p;
     getValue := f; getValueArray := elementwise f |}.

Definition is_text (v : value) : bool :=
  match v with VStr _ => true | _ => false end.
Definition is_boolean (v : value) : bool :=
  match v with VBool _ => true | _ => false end.
Definition is_number (v : value) : bool :=
  match v with VNum _ => true | _ => false end.
(** A date is given as a number of milliseconds or as text. *)
Definition is_date (v : value) : bool :=
  match v with VNum _ | VStr _ => true | _ => false end.
Definition is_id (v : value) : bool :=
  match v with VStr s => negb (s =? EmptyString) | _ => false end.

Definition StringType := scalar is_text (fun v => v).
Definition BooleanType := scalar is_boolean (fun v => v).
Definition DateType := scalar is_date (fun v => v).
Definition NumberType := scalar is_number (fun v => v).
Definition RefType := scalar is_id (fun v => v).

Definition start (o : obj) : world :=
  {| object := o; console := []; requests := [] |}.

(** A model named [User] that stores three documents. *)
Definition user (id : string) : value :=
  VObj [("_id", VStr id); ("name", VStr ("user " ++ id))].

Definition document (id : value) : value :=
  match id with
  | VStr s => if (s =? "u1") || (s =? "u2") || (s =? "u3")
              then user s else VUndefined
  | _ => VUndefined
  end.

Definition User : Model :=
  {| _modelName := "User";
     _modelSchema_fieldDefs := [("name", DString)];
     findById := fun id _ => Return (document id);
     find := fun _ _ _ _ => Return (VArr []) |}.

(** A schema of posts, with its owning model attached. *)
Definition post_defs : fieldDefs :=
  [("title", DString);
   ("author", DObject [("ref", VStr "User")]);
   ("likes", DArray [DObject [("ref", VStr "User")]]);
   ("scores", DArray [DNumber]);
   ("tags", DArray [DString]);
   ("meta", DObject [])].

Definition Post : Model :=
  {| _modelName := "Post";
     _modelSchema_fieldDefs := post_defs;
     findById := fun _ _ => Return VUndefined;
     find := fun _ _ _ _ => Return (VArr []) |}.

Definition posts : Schema := _setModel Post (new_Schema post_defs).

(** The same schema with the registry attached and the field [likes]
    populated from [User]. *)
Definition likes : Populate.t :=
  {| Populate.path := "likes"; Populate.model := "User" |}.

Definition populated : Schema :=
  populate likes (_setModels [User; Post] posts).

(** Descriptors whose target model is not in the registry. *)
Definition ghost_author : Populate.t :=
  {| Populate.path := "author"; Populate.model := "Ghost" |}.

Definition ghost_comments : VirtualDef.t :=
  {| VirtualDef.ref := "Comment"; VirtualDef.localField := "_id";
     VirtualDef.foreignField := "post" |}.

Definition haunted : Schema :=
  virtual "comments" ghost_comments
    (populate ghost_author (_setModels [User; Post] posts)).

(** A schema that declares the key [_id] as a field. *)
Definition tagged : Schema :=
  _setModel Post (new_Schema [("_id", DString); ("title", DString)]).

(** Source documents. *)
Definition draft : obj :=
  [("_id", VStr "p1"); ("title", VStr "hi");
   ("author", VObj [("_id", VStr "u1"); ("name", VStr "user u1")]);
   ("likes", VArr [VStr "u1"; VObj [("_id", VStr "u2")]]);
   ("scores", VStr "oops");
   ("meta", VUndefined); ("_u", VNum 7); ("extra", VBool true)].

Definition stored : obj :=
  [("_id", VStr "p1"); ("author", VStr "u1");
   ("likes", VArr [VStr "u1"; VUndefined; VStr "u2"])].

Definition untitled : obj := [("_id", VStr "p2"); ("title", VUndefined)].

(** [author] is a resolved document and [tags] is not an array. *)
Definition broken : obj :=
  [("_id", VStr "p3"); ("title", VStr "hi");
   ("author", VObj [("_id", VStr "u1")]); ("tags", VNum 3)].

(** Both [title] and [author] are invalid. *)
Definition twice_invalid : obj :=
  [("_id", VStr "p4"); ("title", VNum 5); ("author", VNum 7)].

Definition orphan : obj := [("_id", VStr "p5"); ("author", VNull)].

Definition build (s : Schema) (source : obj)
    (removeId includeDeletes cleanRefs : bool) : outcome obj * world :=
  _build StringType BooleanType DateType NumberType RefType s
    removeId includeDeletes cleanRefs (start source).

End Sample.

(** ** Notions used in the statements *)

Definition put (key : string) (v : value) (w : world) : world :=
  {| object := set key v (object w); console := console w;
     requests := requests w |}.

Definition warned (text : string) (w : world) : world :=
  {| object := object w; console := (console w ++ [text])%list;
     requests := requests w |}.

Definition asked (rs : list request) (w : world) : world :=
  {| object := object w; console := console w;
     requests := (requests w ++ rs)%list |}.

(** The definitions on which reference collapsing acts. *)
Definition collapses (fd : fielddef) : bool :=
  (instanceof_Array fd && is_ref (first fd)) || is_ref fd.

(** The part of [_build] that follows the loop: the structural fields
    [_id], [_c] and [_u], read from the source [o]. *)
Definition structural (removeId : bool) (o retObject : obj) : obj :=
  let retObject := set "_id" (get "_id" o) retObject in
  let retObject := if truthy (get "_c" o)
                   then set "_c" (get "_c" o) retObject else retObject in
  let retObject := if truthy (get "_u" o)
                   then set "_u" (get "_u" o) retObject else retObject in
  if removeId then delete "_id" retObject else retObject.


Definition defined (r : value) : bool := negb (is_undefined r).

(** The callback handed to [asyncForEach] by [_doPopulates]. *)
Definition fetch_into (model : option Model) (r : value)
    (results : list value) : M (list value) :=
  if negb (is_undefined r) then
    bind (call_findById model r true)
      (fun res => ret (results ++ [res])%list)
  else ret results.

(** Whether a populate descriptor reaches a call of [findById], given
    the kind of its field and the value the document holds. *)
Definition needs_fetch (array_field : bool) (v : value) : bool :=
  if array_field
  then truthy v && greater_than_zero (length_of v)
       && existsb defined (indexed v)
  else defined v.

(** The entries a registry stores under a key. *)
Definition registered {A} (key : A -> string) (k : string) (registry : list A)
  : list A :=
  filter (fun p => key p =? k) registry.

(** The entry that holds the key of [entry] once [entry] has been
    registered: the one found, or else [entry] itself. *)
Definition first_of {A} (key : A -> string) (entry : A) (registry : list A)
  : A :=
  match List.find (fun p => key p =? key entry) registry with
  | Some found => found
  | None => entry
  end.

(** Every registry of a schema holds each key once. *)
Definition unique_keys (s : Schema) : Prop :=
  NoDup (map Populate.path (_populates s))
  /\ NoDup (map PreOp.operation (_preOps s))
  /\ NoDup (map Virtual.fieldName (_virtuals s))
  /\ NoDup (map Upload.path (_uploads s)).

Section Notions.
Variables StringType BooleanType DateType NumberType RefType : FieldType.
Variable this : Schema.
Variables includeDeletes cleanRefs : bool.

(** The predicate a definition is validated with, and the label of the
    expected type in the failure text: the branches of
    [_validateField] that call a validator. *)
Definition validation (fd : fielddef) : option ((value -> bool) * string) :=
  match fd with
  | DString => Some (validate StringType, "String")
  | DBoolean => Some (validate BooleanType, "Boolean")
  | DDate => Some (validate DateType, "Date")
  | DNumber => Some (validate NumberType, "Number")
  | DObject _ =>
      if is_ref fd then Some (validate RefType, "Document ID") else None
  | DArray _ =>
      if is_String (first fd)
      then Some (validateArray StringType, "Array<String>")
      else if is_ref (first fd)
           then Some (validateArray RefType, "Array<Document ID>")
           else None
  | DOther => None
  end.

(** How the document of a world relates to the one a round started
    from: it is the same, or the round collapsed its own field. *)
Definition collapsed_at (key : string) (w w' : world) : Prop :=
  requests w' = requests w
  /\ (object w' = object w
      \/ (hasOwnProperty key (object w) = true
          /\ is_undefined (get key (object w)) = false
          /\ cleanRefs = true
          /\ collapses (def_of (_fieldDefs this) key) = true
          /\ exists v, object w' = set key v (object w))).

(** What the loop does to the source document: a property is kept, or
    it is a reference field that was collapsed in place. *)
Definition kept_or_collapsed (ks : list string) (w w' : world) : Prop :=
  requests w' = requests w
  /\ (cleanRefs = false -> object w' = object w)
  /\ forall x,
       lookup x (object w') = lookup x (object w)
       \/ (In x ks
           /\ hasOwnProperty x (object w) = true
           /\ is_undefined (get x (object w)) = false
           /\ cleanRefs = true
           /\ collapses (def_of (_fieldDefs this) x) = true
           /\ hasOwnProperty x (object w') = true).

(** The entry of the result under [x] after the loop has run over
    [ks], starting from [retObject]. *)
Definition built (ks : list string) (retObject : obj) (w w' : world)
    (x : string) : option value :=
  if existsb (String.eqb x) ks && hasOwnProperty x (object w) then
    if is_undefined (get x (object w)) then
      if includeDeletes then Some VDelete else lookup x retObject
    else Some (_getValue StringType BooleanType DateType NumberType RefType
                 this x (get x (object w')))
  else lookup x retObject.

End Notions.

(** ** The hook chain *)

Section Hooks.

(** What calling a callback does: [invoke cb this] stands for
    [cb.call(this, this._next)], where [_next] does nothing and returns
    [undefined].  A callback acts on a state of its own and returns (its
    value is ignored) or throws; callbacks that change the registries of
    the receiving schema while the chain runs are outside the model. *)
Variable state : Type.
Variable invoke : callback -> Schema -> state -> outcome unit * state.

Variable this : Schema.

(** The loop of [_hooks] over the registered entries. *)
Fixpoint hooks_each (preOps : list PreOp.t) (operation : string)
    (st : state) : outcome unit * state :=
  match preOps with
  | [] => (Return tt, st)
  | preOp :: rest =>
      if PreOp.operation preOp =? operation then
        match invoke (PreOp.cb preOp) this st with
        | (Return _, st') => hooks_each rest operation st'
        | (Throw e, st') => (Throw e, st')
        end
      else hooks_each rest operation st
  end.

Definition _hooks (operation : string) (st : state)
  : outcome unit * state :=
  hooks_each (_preOps this) operation st.

(** Calling the callbacks of a list one after the other, up to the
    first that throws. *)
Fixpoint call_all (cbs : list callback) (st : state)
  : outcome unit * state :=
  match cbs with
  | [] => (Return tt, st)
  | cb :: rest =>
      match invoke cb this st with
      | (Return _, st') => call_all rest st'
      | (Throw e, st') => (Throw e, st')
      end
  end.

End Hooks.

(** ** Further notions *)

(** The identity a value of a reference field collapses to: the [_id]
    of a structured value, the value itself otherwise. *)
Definition identity_of (v : value) : value :=
  if is_object v then
    match v with
    | VObj props => get "_id" props
    | _ => VUndefined
    end
  else v.

(** How a run ends, as far as the console and the error are
    concerned. *)
Definition ends_logged (this : Schema) (w : world) (r : outcome obj)
    (w' : world) : Prop :=
  match r with
  | Return _ => console w' = console w
  | Throw e =>
      match _model this with
      | Some m =>
          (exists inner, e = Error (processing_text (_modelName m) inner))
          /\ console w' = (console w ++ [message e])%list
      | None =>
          e = cannot_read "_modelName" "null" /\ console w' = console w
      end
  end.

(** A source on which [object.hasOwnProperty] is the inherited method:
    it has no property of that name of its own. *)
Definition plain (o : obj) : bool := negb (hasOwnProperty "hasOwnProperty" o).

(** The values a template literal renders as [to_string] says: numbers
    within the safe integer range, objects without a [toString] of
    their own, arrays of such values. *)
Fixpoint renders (v : value) : bool :=
  match v with
  | VNum n => (Z.abs n <=? 9007199254740991)%Z
  | VObj props => negb (hasOwnProperty "toString" props)
  | VArr elems => forallb renders elems
  | _ => true
  end.

(** What reference collapsing makes of the value of a field: the
    identities of the elements for an array of references, the identity
    for a reference, the value itself for any other definition. *)
Definition collapsed_value (fd : fielddef) (v : value) : value :=
  if instanceof_Array fd && is_ref (first fd) then
    match iterate v with
    | Return elems => VArr (map identity_of elems)
    | Throw _ => v
    end
  else if is_ref fd then identity_of v
  else v.

(** The property [x] of the source once the loop of [_build] has got
    through the keys [ks]: collapsed when [cleanRefs] is set and [x] is
    one of these keys, owned with a defined value; as it was
    otherwise. *)
Definition source_after (this : Schema) (cleanRefs : bool) (ks : list string)
    (o : obj) (x : string) : option value :=
  if cleanRefs && existsb (String.eqb x) ks && hasOwnProperty x o
     && negb (is_undefined (get x o))
  then Some (collapsed_value (def_of (_fieldDefs this) x) (get x o))
  else lookup x o.

(** [object[x]] once the loop has got through every declared key. *)
Definition held_after (this : Schema) (cleanRefs : bool) (o : obj)
    (x : string) : value :=
  match source_after this cleanRefs (for_in (_fieldDefs this)) o x with
  | Some v => v
  | None => VUndefined
  end.

(** A sequence of calls, performed from left to right. *)
Definition performs (cs : list call) (s : Schema) : Schema :=
  fold_left (fun s c => perform c s) cs s.

(** The entries of a list without those whose key occurred before. *)
Fixpoint keep_first {A} (key : A -> string) (l : list A) : list A :=
  match l with
  | [] => []
  | e :: rest =>
      e :: filter (fun p => negb (key p =? key e)) (keep_first key rest)
  end.

(** Requests that ask for nested resolution. *)
Definition nested_fetch (r : request) : bool :=
  match r with FindById _ _ true => true | _ => false end.

Definition nested_query (r : request) : bool :=
  match r with Find _ _ op _ true => op =? "==" | _ => false end.

Section Acceptance.
Variables StringType BooleanType DateType NumberType RefType : FieldType.
Variable this : Schema.

(** Whether the field [key] of the document [o] gets through the loop
    of [_build] when nothing is collapsed: it is not validated (not an
    own property, or [undefined]), or its definition calls no validator,
    or the validator accepts its value. *)
Definition passes (o : obj) (key : string) : bool :=
  if hasOwnProperty key o && negb (is_undefined (get key o)) then
    match validation StringType BooleanType DateType NumberType RefType
            (def_of (_fieldDefs this) key) with
    | Some (accepts, _) => accepts (get key o)
    | None => true
    end
  else true.

End Acceptance.

(** Further concrete inputs. *)
Module Cases.

(** A callback is identified with the text it logs; the callback [0]
    throws. *)
Definition logging (cb : callback) (_ : Schema) (log : list nat)
  : outcome unit * list nat :=
  match cb with
  | O => (Throw (Error "hook failed"), log)
  | _ => (Return tt, (log ++ [cb])%list)
  end.

Definition hooked : Schema :=
  pre "delete" 4 (pre "save" 3 (pre "delete" 2 (pre "save" 1 Sample.posts))).

Definition author : Populate.t :=
  {| Populate.path := "author"; Populate.model := "User" |}.

(** The schema of posts with both of its reference fields populated
    from [User]. *)
Definition linked : Schema :=
  populate author Sample.populated.

Definition followers : VirtualDef.t :=
  {| VirtualDef.ref := "User"; VirtualDef.localField := "_id";
     VirtualDef.foreignField := "follows" |}.

Definition watched : Schema := virtual "followers" followers linked.

(** A schema that declares [_id] as a reference. *)
Definition keyed : Schema :=
  _setModel Sample.Post (new_Schema [("_id", DObject [("ref", VStr "User")])]).

Definition liked : obj :=
  [("_id", VStr "p1"); ("author", VStr "u3");
   ("likes", VArr [VStr "u1"; VStr "u2"])].

Definition resolved : obj :=
  [("_id", VStr "p1"); ("author", Sample.user "u3");
   ("likes", VArr [VStr "u1"; Sample.user "u2"; VUndefined])].

End Cases.

(** * Properties *)

(** ** Objects as association lists *)

Section PropertyFacts.
Context {A : Type}.
Implicit Types (o : list (string * A)) (k x : string) (v : A).

Lemma lookup_set_same k v o : lookup k (set k v o) = Some v.
Proof.
  induction o as [|[k' v'] o IH]; simpl.
  - now rewrite String.eqb_refl.
  - destruct (k' =? k) eqn:E; simpl.
    + now rewrite String.eqb_refl.
    + now rewrite E.
Qed.

Lemma lookup_set_other k x v o :
  x <> k -> lookup x (set k v o) = lookup x o.
Proof.
  intros Hx. apply String.eqb_neq in Hx.
  induction o as [|[k' v'] o IH]; simpl.
  - now rewrite String.eqb_sym, Hx.
  - destruct (k' =? k) eqn:E; simpl.
    + apply String.eqb_eq in E. subst k'.
      now rewrite (String.eqb_sym k x), Hx.
    + now rewrite IH.
Qed.

Lemma hasOwnProperty_keys k o : hasOwnProperty k o = true <-> In k (keys o).
Proof.
  unfold hasOwnProperty.
  induction o as [|[k' v'] o IH]; simpl.
  - split; [discriminate | tauto].
  - destruct (k' =? k) eqn:E.
    + apply String.eqb_eq in E. tauto.
    + apply String.eqb_neq in E. rewrite IH. tauto.
Qed.

Lemma lookup_keys k o : (exists v, lookup k o = Some v) <-> In k (keys o).
Proof.
  rewrite <- hasOwnProperty_keys. unfold hasOwnProperty.
  destruct (lookup k o) as [v|].
  - split; [reflexivity | now exists v].
  - split; [intros [v H]; discriminate | discriminate].
Qed.

Lemma keys_set k x v o : In x (keys (set k v o)) <-> x = k \/ In x (keys o).
Proof.
  rewrite <- !lookup_keys.
  destruct (String.eqb_spec x k) as [->|Hne].
  - rewrite lookup_set_same. split; [tauto | now exists v].
  - rewrite lookup_set_other by assumption. tauto.
Qed.

Lemma hasOwnProperty_set_other k x v o :
  x <> k -> hasOwnProperty x (set k v o) = hasOwnProperty x o.
Proof.
  intros Hx. unfold hasOwnProperty. now rewrite lookup_set_other.
Qed.

Lemma hasOwnProperty_set_own k x v o :
  hasOwnProperty k o = true ->
  hasOwnProperty x (set k v o) = hasOwnProperty x o.
Proof.
  intros Hk. destruct (String.eqb_spec x k) as [->|Hne].
  - rewrite Hk. unfold hasOwnProperty. now rewrite lookup_set_same.
  - now apply hasOwnProperty_set_other.
Qed.

Lemma lookup_delete_same k o : lookup k (delete k o) = None.
Proof.
  unfold delete. induction o as [|[k' v'] o IH]; simpl; [reflexivity|].
  destruct (k' =? k) eqn:E; simpl; [assumption|].
  now rewrite E.
Qed.

Lemma lookup_delete_other k x o :
  x <> k -> lookup x (delete k o) = lookup x o.
Proof.
  intros Hx. unfold delete.
  induction o as [|[k' v'] o IH]; simpl; [reflexivity|].
  destruct (k' =? k) eqn:E; simpl.
  - apply String.eqb_eq in E. subst k'.
    apply String.eqb_neq in Hx. now rewrite (String.eqb_sym k x), Hx.
  - now rewrite IH.
Qed.

Lemma keys_delete k x o : In x (keys (delete k o)) <-> x <> k /\ In x (keys o).
Proof.
  rewrite <- !lookup_keys.
  destruct (String.eqb_spec x k) as [->|Hne].
  - rewrite lookup_delete_same. split; [intros [v H]; discriminate | tauto].
  - rewrite lookup_delete_other by assumption. tauto.
Qed.

Lemma for_in_keys k o : In k (for_in o) <-> In k (keys o).
Proof.
  induction o as [|[k' v'] o IH]; simpl; [tauto|].
  rewrite filter_In, IH, negb_true_iff, String.eqb_neq.
  destruct (String.eqb_spec k' k) as [->|Hne]; [tauto|].
  split; [tauto|]. intros [H|H]; [tauto|]. right. split; congruence.
Qed.

Lemma for_in_NoDup o : NoDup (for_in o).
Proof.
  induction o as [|[k' v'] o IH]; simpl; constructor.
  - rewrite filter_In, String.eqb_refl. simpl. intros [_ H]. discriminate.
  - now apply NoDup_filter.
Qed.
End PropertyFacts.

Lemma get_lookup k (o o' : obj) :
  lookup k o = lookup k o' -> get k o = get k o'.
Proof. unfold get. now intros ->. Qed.

Lemma hasOwnProperty_lookup {A} k (o o' : list (string * A)) :
  lookup k o = lookup k o' -> hasOwnProperty k o = hasOwnProperty k o'.
Proof. unfold hasOwnProperty. now intros ->. Qed.

(** ** Substrings *)

Lemma prefix_app s t : String.prefix s (s ++ t) = true.
Proof.
  induction s as [|c s IH]; simpl.
  - now destruct t.
  - destruct (ascii_dec c c) as [_|Hne]; [assumption | now elim Hne].
Qed.

Lemma includes_prefix needle hay :
  String.prefix needle hay = true -> includes needle hay = true.
Proof. destruct hay; simpl; now intros ->. Qed.

Lemma includes_skip needle before hay :
  includes needle hay = true -> includes needle (before ++ hay) = true.
Proof.
  intros H. induction before as [|c before IH]; [exact H|].
  change (includes needle (String c (before ++ hay)) = true).
  cbn [includes]. rewrite IH.
  now destruct (String.prefix needle (String c (before ++ hay))).
Qed.

Lemma includes_here needle after : includes needle (needle ++ after) = true.
Proof. apply includes_prefix, prefix_app. Qed.

Ltac find_in_text :=
  repeat first [apply includes_here | apply includes_skip].

(** ** Type dispatch *)

Section Dispatch.
Variables StringType BooleanType DateType NumberType RefType : FieldType.
Variable this : Schema.

Local Abbreviation validateField :=
  (_validateField StringType BooleanType DateType NumberType RefType this).
Local Abbreviation getValue_ :=
  (_getValue StringType BooleanType DateType NumberType RefType this).

Lemma validateField_table key v :
  validateField key v =
  match validation StringType BooleanType DateType NumberType RefType
            (def_of (_fieldDefs this) key) with
  | Some (accepts, expected) =>
      if accepts v then Return true
      else and_then (this_modelName this)
             (fun name => Throw (Error (invalid_text name key expected v)))
  | None => Return (typeof_object (def_of (_fieldDefs this) key))
  end.
Proof.
  unfold _validateField, validation, checked.
  destruct (def_of (_fieldDefs this) key) as [| | | |props|elems|]; simpl.
  - destruct (validate StringType v); [reflexivity|].
    now destruct (this_modelName this).
  - destruct (validate BooleanType v); [reflexivity|].
    now destruct (this_modelName this).
  - destruct (validate DateType v); [reflexivity|].
    now destruct (this_modelName this).
  - destruct (validate NumberType v); [reflexivity|].
    now destruct (this_modelName this).
  - unfold is_ref; simpl.
    destruct (existsb (fun k => k =? "ref") (keys props)); simpl;
      [|reflexivity].
    destruct (validate RefType v); [reflexivity|].
    now destruct (this_modelName this).
  - destruct elems as [|d rest]; simpl; [reflexivity|].
    destruct d as [| | | |props|elems'|]; simpl; try reflexivity.
    + destruct (validateArray StringType v); [reflexivity|].
      now destruct (this_modelName this).
    + unfold is_ref; simpl.
      destruct (existsb (fun k => k =? "ref") (keys props)); simpl;
      [|reflexivity].
      destruct (validateArray RefType v); [reflexivity|].
      now destruct (this_modelName this).
  - reflexivity.
Qed.

Lemma getValue_table key v :
  getValue_ key v =
  match def_of (_fieldDefs this) key with
  | DString => getValue StringType v
  | DBoolean => getValue BooleanType v
  | DDate => getValue DateType v
  | DNumber => getValue NumberType v
  | DObject _ => v
  | DArray _ => v
  | DOther => VNull
  end.
Proof.
  unfold _getValue.
  destruct (def_of (_fieldDefs this) key) as [| | | |props|elems|];
    reflexivity.
Qed.

(** *** Reference collapsing *)

Lemma depopulate_elems_null elems :
  In VNull elems ->
  forall acc, depopulate_elems elems acc = Throw (cannot_read "_id" "null").
Proof.
  induction elems as [|v rest IH]; simpl; [tauto|].
  intros Hin acc.
  destruct v; simpl; try (apply IH; destruct Hin as [Hin|Hin];
                          [discriminate | assumption]).
  reflexivity.
Qed.

Lemma depopulate_untouched key w :
  collapses (def_of (_fieldDefs this) key) = false ->
  _depopulate this key w = (Return tt, w).
Proof.
  unfold collapses, _depopulate. intros H.
  apply orb_false_iff in H. destruct H as [-> ->]. reflexivity.
Qed.

(** Collapsing either fails and leaves the world as it was, or
    overwrites the one property. *)
Lemma depopulate_outcome key w :
  (exists e, _depopulate this key w = (Throw e, w))
  \/ _depopulate this key w = (Return tt, w)
  \/ (collapses (def_of (_fieldDefs this) key) = true
      /\ exists v, _depopulate this key w = (Return tt, put key v w)).
Proof.
  destruct (collapses (def_of (_fieldDefs this) key)) eqn:Hc;
    [|right; left; now apply depopulate_untouched].
  unfold _depopulate, collapses in *.
  destruct (def_of (_fieldDefs this) key) as [| | | |props|elems|];
    try discriminate.
  - (* a reference *)
    simpl in Hc. rewrite Hc. simpl.
    unfold bind, read_object, lift, assign, ret, put; simpl.
    destruct (is_object (get key (object w))) eqn:Ho.
    + destruct (read_id (get key (object w))) as [id|e].
      * right; right. split; [reflexivity|]. now exists id.
      * left. now exists e.
    + right; right. split; [reflexivity|]. now exists (get key (object w)).
  - (* an array of references *)
    assert (Hr : is_ref (DArray elems) = false) by reflexivity.
    rewrite Hr, orb_false_r in Hc. rewrite Hr, Hc.
    simpl. unfold bind, read_object, lift, assign, ret, put; simpl.
    destruct (iterate (get key (object w))) as [vs|e]; [|left; now exists e].
    destruct (depopulate_elems vs []) as [ds|e]; [|left; now exists e].
    right; right. split; [reflexivity|]. now exists (VArr ds).
Qed.

Lemma depopulate_null_reference key w :
  is_ref (def_of (_fieldDefs this) key) = true ->
  get key (object w) = VNull ->
  _depopulate this key w = (Throw (cannot_read "_id" "null"), w).
Proof.
  unfold _depopulate. intros Hr Hv.
  destruct (def_of (_fieldDefs this) key) as [| | | |props|elems|];
    try discriminate.
  rewrite Hr. simpl. unfold bind, read_object, lift, ret; simpl.
  now rewrite Hv.
Qed.

Lemma depopulate_null_element key w elems :
  instanceof_Array (def_of (_fieldDefs this) key) = true ->
  is_ref (first (def_of (_fieldDefs this) key)) = true ->
  get key (object w) = VArr elems ->
  In VNull elems ->
  _depopulate this key w = (Throw (cannot_read "_id" "null"), w).
Proof.
  unfold _depopulate. intros Ha Hr Hv Hin.
  rewrite Ha, Hr. simpl. unfold bind, read_object, lift, ret; simpl.
  rewrite Hv. simpl. now rewrite depopulate_elems_null.
Qed.

End Dispatch.

(** ** Document build *)

Section BuildFacts.
Variables StringType BooleanType DateType NumberType RefType : FieldType.
Variable this : Schema.
Variables includeDeletes cleanRefs : bool.

Local Abbreviation validateField :=
  (_validateField StringType BooleanType DateType NumberType RefType this).
Local Abbreviation getValue_ :=
  (_getValue StringType BooleanType DateType NumberType RefType this).
Local Abbreviation field :=
  (build_field StringType BooleanType DateType NumberType RefType this
     includeDeletes cleanRefs).
Local Abbreviation fields :=
  (build_fields StringType BooleanType DateType NumberType RefType this
     includeDeletes cleanRefs).
Local Abbreviation collapse key :=
  (if cleanRefs then _depopulate this key else ret tt).

(** The [catch] block of [_build]. *)
Lemma build_catch (e : error) (w : world) :
  bind (lift (this_modelName this)) (fun name =>
    bind (console_warn (processing_text name (message e))) (fun _ =>
      bind (lift (this_modelName this)) (fun name =>
        throw (A := obj) (Error (processing_text name (message e)))))) w
  = match _model this with
    | Some m =>
        (Throw (Error (processing_text (_modelName m) (message e))),
         warned (processing_text (_modelName m) (message e)) w)
    | None => (Throw (cannot_read "_modelName" "null"), w)
    end.
Proof.
  unfold bind, lift, this_modelName, console_warn, throw, warned.
  now destruct (_model this).
Qed.

(** One round of the loop, case by case. *)
Lemma build_field_eq key retObject w :
  field key retObject w =
  if hasOwnProperty key (object w) && is_undefined (get key (object w))
     && includeDeletes
  then (Return (set key VDelete retObject), w)
  else if hasOwnProperty key (object w)
          && negb (is_undefined (get key (object w)))
  then match collapse key w with
       | (Return _, w') =>
           match validateField key (get key (object w')) with
           | Return _ =>
               (Return (set key (getValue_ key (get key (object w')))
                          retObject), w')
           | Throw e =>
               match _model this with
               | Some m =>
                   (Throw (Error (processing_text (_modelName m) (message e))),
                    warned (processing_text (_modelName m) (message e)) w')
               | None => (Throw (cannot_read "_modelName" "null"), w')
               end
           end
       | (Throw e, w') =>
           match _model this with
           | Some m =>
               (Throw (Error (processing_text (_modelName m) (message e))),
                warned (processing_text (_modelName m) (message e)) w')
           | None => (Throw (cannot_read "_modelName" "null"), w')
           end
       end
  else (Return retObject, w).
Proof.
  unfold build_field.
  unfold bind at 1. unfold read_object at 1. cbv beta iota.
  destruct (hasOwnProperty key (object w) && is_undefined (get key (object w))
            && includeDeletes); [reflexivity|].
  destruct (hasOwnProperty key (object w)
            && negb (is_undefined (get key (object w)))); [|reflexivity].
  unfold try_catch.
  unfold bind at 1.
  destruct (collapse key w) as [[[]|e] w'].
  - unfold bind at 1. unfold read_object at 1. cbv beta iota.
    unfold bind at 1. unfold lift at 1.
    destruct (validateField key (get key (object w'))) as [b|e].
    + reflexivity.
    + apply build_catch.
  - apply build_catch.
Qed.

Lemma collapse_collapsed key w r w' :
  hasOwnProperty key (object w) = true ->
  is_undefined (get key (object w)) = false ->
  collapse key w = (r, w') ->
  console w' = console w /\ collapsed_at this cleanRefs key w w'.
Proof.
  intros Hown Hdef. unfold collapsed_at.
  destruct cleanRefs.
  - destruct (depopulate_outcome this key w) as [[e H]|[H|[Hc [v H]]]];
      rewrite H; intros [= <- <-]; simpl; auto 10.
    repeat split; auto. right. repeat split; auto. now exists v.
  - intros [= <- <-]. auto.
Qed.

Lemma build_field_world key retObject w r w' :
  field key retObject w = (r, w') -> collapsed_at this cleanRefs key w w'.
Proof.
  rewrite build_field_eq.
  destruct (hasOwnProperty key (object w)) eqn:Hown; simpl;
    [|intros [= <- <-]; split; auto].
  destruct (is_undefined (get key (object w))) eqn:Hdef; simpl.
  - destruct includeDeletes; intros [= <- <-]; split; auto.
  - destruct (collapse key w) as [[[]|e] w1] eqn:Hc;
      destruct (collapse_collapsed key w _ w1 Hown Hdef Hc) as [_ Hw].
    + destruct (validateField key (get key (object w1)));
        [|destruct (_model this)]; intros [= <- <-]; exact Hw.
    + destruct (_model this); intros [= <- <-]; exact Hw.
Qed.

Lemma collapsed_at_other key w w' x :
  collapsed_at this cleanRefs key w w' -> x <> key ->
  lookup x (object w') = lookup x (object w).
Proof.
  intros [_ [->|(_ & _ & _ & _ & v & ->)]] Hx; [reflexivity|].
  now apply lookup_set_other.
Qed.

Lemma collapsed_at_own key w w' x :
  collapsed_at this cleanRefs key w w' ->
  hasOwnProperty x (object w') = hasOwnProperty x (object w).
Proof.
  intros [_ [->|(Hown & _ & _ & _ & v & ->)]]; [reflexivity|].
  now apply hasOwnProperty_set_own.
Qed.

(** The loop, unrolled over a concatenation. *)
Lemma build_fields_app before after retObject w :
  fields (before ++ after)%list retObject w =
  match fields before retObject w with
  | (Return retObject', w') => fields after retObject' w'
  | (Throw e, w') => (Throw e, w')
  end.
Proof.
  revert retObject w.
  induction before as [|k before IH]; intros retObject w; simpl; [reflexivity|].
  unfold bind.
  destruct (field k retObject w) as [[r1|e] w1]; [apply IH | reflexivity].
Qed.

Lemma build_fields_world ks : forall retObject w r w',
  fields ks retObject w = (r, w') -> kept_or_collapsed this cleanRefs ks w w'.
Proof.
  induction ks as [|k ks IH]; intros retObject w r w'; simpl.
  - intros [= <- <-]. repeat split; auto.
  - unfold bind.
    destruct (field k retObject w) as [[r1|e] w1] eqn:Hk.
    + intros Hrest. apply IH in Hrest.
      apply build_field_world in Hk.
      destruct Hrest as (Hq & Hsame & Hx).
      assert (Hk' := Hk). destruct Hk' as (Hq1 & Hobj).
      split; [congruence|]. split.
      * intros Hc. rewrite (Hsame Hc).
        destruct Hobj as [Ho|(_ & _ & Hc' & _)]; congruence.
      * intros x. destruct (String.eqb_spec x k) as [->|Hne].
        -- destruct Hobj as [Ho|(Hown & Hdef & Hc & Hcol & v & Ho)].
           ++ rewrite <- Ho. destruct (Hx k) as [H|(Hin & H)]; [now left|].
              right. simpl; tauto.
           ++ right. simpl. repeat split; auto.
              destruct (Hx k) as [H|(_ & _ & _ & _ & _ & H)]; [|exact H].
              rewrite (hasOwnProperty_lookup _ _ _ H), Ho.
              unfold hasOwnProperty. now rewrite lookup_set_same.
        -- pose proof (collapsed_at_other _ _ _ x Hk Hne) as Hl.
           destruct (Hx x) as [H|(Hin & Hown & Hdef & H)].
           ++ left. congruence.
           ++ right. simpl.
              rewrite <- (hasOwnProperty_lookup _ _ _ Hl).
              rewrite <- (get_lookup _ _ _ Hl). tauto.
    + intros [= <- <-]. apply build_field_world in Hk.
      destruct Hk as (Hq1 & Hobj).
      split; [exact Hq1|]. split.
      * intros Hc. destruct Hobj as [Ho|(_ & _ & Hc' & _)]; congruence.
      * intros x. destruct (String.eqb_spec x k) as [->|Hne].
        -- destruct Hobj as [Ho|(Hown & Hdef & Hc & Hcol & v & Ho)].
           ++ left. now rewrite Ho.
           ++ right. simpl. repeat split; auto.
              rewrite Ho. unfold hasOwnProperty. now rewrite lookup_set_same.
        -- left. apply (collapsed_at_other k); [split|]; assumption.
Qed.

Lemma kept_outside ks w w' x :
  kept_or_collapsed this cleanRefs ks w w' -> ~ In x ks ->
  lookup x (object w') = lookup x (object w).
Proof. intros (_ & _ & H) Hx. destruct (H x) as [E|(Hin & _)]; tauto. Qed.

Lemma kept_own ks w w' x :
  kept_or_collapsed this cleanRefs ks w w' ->
  hasOwnProperty x (object w') = hasOwnProperty x (object w).
Proof.
  intros (_ & _ & H). destruct (H x) as [E|(_ & Hown & _ & _ & _ & Hown')].
  - now apply hasOwnProperty_lookup.
  - congruence.
Qed.

Lemma build_field_result key retObject w retObject' w' :
  field key retObject w = (Return retObject', w') ->
  retObject' =
    if hasOwnProperty key (object w) then
      if is_undefined (get key (object w)) then
        if includeDeletes then set key VDelete retObject else retObject
      else set key (getValue_ key (get key (object w'))) retObject
    else retObject.
Proof.
  rewrite build_field_eq.
  destruct (hasOwnProperty key (object w)); simpl; [|now intros [= <- <-]].
  destruct (is_undefined (get key (object w))); simpl.
  - destruct includeDeletes; now intros [= <- <-].
  - destruct (collapse key w) as [[[]|e] w1].
    + destruct (validateField key (get key (object w1)));
        [now intros [= <- <-] | destruct (_model this); discriminate].
    + destruct (_model this); discriminate.
Qed.

Lemma build_fields_result ks : NoDup ks -> forall retObject w retObject' w',
  fields ks retObject w = (Return retObject', w') ->
  forall x,
    lookup x retObject'
    = built StringType BooleanType DateType NumberType RefType this
        includeDeletes ks retObject w w' x.
Proof.
  induction 1 as [|k ks Hk Hnd IH]; intros retObject w retObject' w'; simpl.
  - intros [= <- <-] x. reflexivity.
  - unfold bind.
    destruct (field k retObject w) as [[r1|e] w1] eqn:Hf; [|discriminate].
    intros Hrest x.
    pose proof (build_field_world _ _ _ _ _ Hf) as Hw1.
    pose proof (build_fields_world _ _ _ _ _ Hrest) as Hw'.
    rewrite (IH _ _ _ _ Hrest x). unfold built. simpl existsb.
    apply build_field_result in Hf.
    destruct (String.eqb_spec x k) as [->|Hne]; simpl.
    + assert (Hnot : existsb (String.eqb k) ks = false).
      { apply not_true_is_false. intros H. apply existsb_exists in H.
        destruct H as (y & Hy & E). apply String.eqb_eq in E. now subst y. }
      rewrite Hnot. simpl.
      rewrite (get_lookup _ _ _ (kept_outside _ _ _ _ Hw' Hk)).
      subst r1.
      destruct (hasOwnProperty k (object w)); [|reflexivity].
      destruct (is_undefined (get k (object w))).
      * destruct includeDeletes; [apply lookup_set_same | reflexivity].
      * apply lookup_set_same.
    + pose proof (collapsed_at_other _ _ _ x Hw1 Hne) as Hl.
      rewrite (hasOwnProperty_lookup _ _ _ Hl), (get_lookup _ _ _ Hl).
      assert (Hr : lookup x r1 = lookup x retObject).
      { subst r1.
        destruct (hasOwnProperty k (object w)); [|reflexivity].
        destruct (is_undefined (get k (object w)));
          [destruct includeDeletes|]; try reflexivity;
          now apply lookup_set_other. }
      now rewrite Hr.
Qed.


End BuildFacts.

(** ** The result of [build] *)

Lemma keys_structural removeId o retObject x :
  In x (keys (structural removeId o retObject)) <->
  (x = "_id" -> removeId = false)
  /\ (In x (keys retObject) \/ x = "_id"
      \/ (x = "_c" /\ truthy (get "_c" o) = true)
      \/ (x = "_u" /\ truthy (get "_u" o) = true)).
Proof.
  unfold structural.
  assert (H : forall r : obj,
    In x (keys (if removeId then delete "_id" r else r)) <->
    (x = "_id" -> removeId = false) /\ In x (keys r)).
  { intros r. destruct removeId.
    - rewrite keys_delete. split; intros [H1 H2]; split; auto.
      + intros E. now elim H1.
      + intros E. specialize (H1 E). discriminate.
    - tauto. }
  rewrite H. clear H.
  destruct (truthy (get "_c" o)); destruct (truthy (get "_u" o));
    rewrite ?keys_set; intuition congruence.
Qed.

Lemma lookup_structural removeId o retObject x :
  x <> "_id" ->
  (x = "_c" -> truthy (get "_c" o) = false) ->
  (x = "_u" -> truthy (get "_u" o) = false) ->
  lookup x (structural removeId o retObject) = lookup x retObject.
Proof.
  intros Hid Hc Hu. unfold structural.
  assert (H : forall r : obj,
    lookup x (if removeId then delete "_id" r else r) = lookup x r).
  { intros r.
    destruct removeId; [now apply lookup_delete_other | reflexivity]. }
  rewrite H. clear H.
  assert (Hset : forall k (r : obj),
    (x = k -> truthy (get k o) = false) ->
    lookup x (if truthy (get k o) then set k (get k o) r else r) = lookup x r).
  { intros k r Hk. destruct (truthy (get k o)) eqn:E; [|reflexivity].
    apply lookup_set_other. intros ->. specialize (Hk eq_refl). discriminate. }
  rewrite (Hset "_u") by assumption.
  rewrite (Hset "_c") by assumption.
  now apply lookup_set_other.
Qed.

Section BuildTheorems.
Variables StringType BooleanType DateType NumberType RefType : FieldType.
Variable this : Schema.
Variables removeId includeDeletes cleanRefs : bool.

Local Abbreviation validateField :=
  (_validateField StringType BooleanType DateType NumberType RefType this).
Local Abbreviation getValue_ :=
  (_getValue StringType BooleanType DateType NumberType RefType this).
Local Abbreviation fields :=
  (build_fields StringType BooleanType DateType NumberType RefType this
     includeDeletes cleanRefs).
Local Abbreviation build :=
  (_build StringType BooleanType DateType NumberType RefType this
     removeId includeDeletes cleanRefs).
Local Abbreviation built_ :=
  (built StringType BooleanType DateType NumberType RefType this
     includeDeletes).
Local Abbreviation declared := (for_in (_fieldDefs this)).

Lemma build_eq w :
  build w =
  match fields declared [] w with
  | (Return retObject, w') =>
      (Return (structural removeId (object w') retObject), w')
  | (Throw e, w') => (Throw e, w')
  end.
Proof.
  unfold _build, bind.
  destruct (fields declared [] w) as [[r|e] w']; reflexivity.
Qed.

Lemma built_nil ks w w' x :
  (exists v, built_ ks [] w w' x = Some v) <->
  In x ks /\ hasOwnProperty x (object w) = true
  /\ (is_undefined (get x (object w)) = false \/ includeDeletes = true).
Proof.
  unfold built.
  assert (Hin : existsb (String.eqb x) ks = true <-> In x ks).
  { rewrite existsb_exists. split.
    - intros (y & Hy & E). apply String.eqb_eq in E. now subst.
    - intros H. exists x. now rewrite String.eqb_refl. }
  destruct (existsb (String.eqb x) ks); simpl.
  - destruct (hasOwnProperty x (object w)); simpl.
    + destruct (is_undefined (get x (object w))).
      * destruct includeDeletes; simpl.
        -- split; [intros _|intros _; now eexists]. intuition.
        -- split; [intros [v H]; discriminate|]. intuition discriminate.
      * split; [intros _|intros _; now eexists]. intuition.
    + split; [intros [v H]; discriminate|]. intuition discriminate.
  - split; [intros [v H]; discriminate|].
    intros (H & _). apply Hin in H. discriminate.
Qed.

(** The truthiness of a structural field after the loop is the one it
    had in the source, unless the field is itself a declared reference
    that was collapsed, in which case it is part of the result. *)
Lemma structural_truthy ks w w' k :
  kept_or_collapsed this cleanRefs ks w w' ->
  truthy (get k (object w')) = truthy (get k (object w))
  \/ (In k ks /\ hasOwnProperty k (object w) = true
      /\ is_undefined (get k (object w)) = false).
Proof.
  intros (_ & _ & H). destruct (H k) as [E|(Hin & Hown & Hdef & _)].
  - left. now rewrite (get_lookup _ _ _ E).
  - right. auto.
Qed.

(** C4, as amended.  Whenever [build] returns a result, a key belongs
    to it exactly when it is a declared key that is an own property of
    the source whose value is defined (or is [undefined] while
    [includeDeletes] is set), or [_c] or [_u] with a truthy value on the
    source, or [_id]; and [_id] is absent whenever [removeId] is set. *)
Theorem build_key_set w retObject w' :
  build w = (Return retObject, w') ->
  forall x,
    In x (keys retObject) <->
    (x = "_id" -> removeId = false)
    /\ ((In x (keys (_fieldDefs this))
         /\ hasOwnProperty x (object w) = true
         /\ (is_undefined (get x (object w)) = false
             \/ includeDeletes = true))
        \/ x = "_id"
        \/ (x = "_c" /\ truthy (get "_c" (object w)) = true)
        \/ (x = "_u" /\ truthy (get "_u" (object w)) = true)).
Proof.
  rewrite build_eq.
  destruct (fields declared [] w) as [[r|e] w1] eqn:Hf; [|discriminate].
  intros [= <- <-] x.
  pose proof (build_fields_world _ _ _ _ _ _ _ _ _ _ _ _ _ Hf) as Hw.
  pose proof (build_fields_result _ _ _ _ _ _ _ _ _ (for_in_NoDup _)
                _ _ _ _ Hf x) as Hx.
  rewrite keys_structural, <- lookup_keys, Hx, built_nil, for_in_keys.
  destruct (structural_truthy _ _ _ "_c" Hw) as [Ec|Dc];
    destruct (structural_truthy _ _ _ "_u" Hw) as [Eu|Du];
    rewrite ?Ec, ?Eu; try tauto.
  - rewrite for_in_keys in Du.
    destruct (String.eqb_spec x "_u") as [->|Hne]; [tauto|].
    intuition congruence.
  - rewrite for_in_keys in Dc.
    destruct (String.eqb_spec x "_c") as [->|Hne]; [tauto|].
    intuition congruence.
  - rewrite for_in_keys in Dc, Du.
    destruct (String.eqb_spec x "_c") as [->|Hc]; [tauto|].
    destruct (String.eqb_spec x "_u") as [->|Hu]; [tauto|].
    intuition congruence.
Qed.

(** C7, as amended.  Whenever [build] returns a result: a declared key
    other than [_id] that the source owns with the value [undefined]
    maps to the delete marker when [includeDeletes] is set, and is not a
    key of the result otherwise. *)
Theorem unset_field_marker w retObject w' key :
  build w = (Return retObject, w') ->
  In key (keys (_fieldDefs this)) ->
  lookup key (object w) = Some VUndefined ->
  key <> "_id" ->
  (includeDeletes = true -> lookup key retObject = Some VDelete)
  /\ (includeDeletes = false -> ~ In key (keys retObject)).
Proof.
  rewrite build_eq.
  destruct (fields declared [] w) as [[r|e] w1] eqn:Hf; [|discriminate].
  intros [= <- <-] Hdecl Hsrc Hid.
  pose proof (build_fields_world _ _ _ _ _ _ _ _ _ _ _ _ _ Hf) as Hw.
  pose proof (build_fields_result _ _ _ _ _ _ _ _ _ (for_in_NoDup _)
                _ _ _ _ Hf key) as Hx.
  assert (Hget : get key (object w) = VUndefined)
    by (unfold get; now rewrite Hsrc).
  assert (Hown : hasOwnProperty key (object w) = true)
    by (unfold hasOwnProperty; now rewrite Hsrc).
  assert (Hkept : get key (object w1) = VUndefined).
  { destruct Hw as (_ & _ & H).
    destruct (H key) as [E|(_ & _ & Hdef & _)].
    - now rewrite (get_lookup _ _ _ E).
    - rewrite Hget in Hdef. discriminate. }
  assert (Hlook : lookup key (structural removeId (object w1) r)
                  = lookup key r).
  { apply lookup_structural; [assumption| |]; intros ->; now rewrite Hkept. }
  assert (Hin : existsb (String.eqb key) declared = true).
  { apply existsb_exists. exists key. rewrite for_in_keys, String.eqb_refl.
    auto. }
  unfold built in Hx. rewrite Hin, Hown, Hget in Hx. simpl in Hx.
  split; intros Hflag; rewrite Hflag in Hx.
  - now rewrite Hlook.
  - rewrite <- lookup_keys, Hlook, Hx. intros [v H]. discriminate.
Qed.

(** C1.  The value [build] stores for a declared field of the source:
    the coercion of its type for the four scalar kinds, but the value
    itself, uncoerced, for every definition that is an object or an
    array, references and arrays of text or of references included
    (the value is read after reference collapsing). *)
Theorem stored_field_value w retObject w' key :
  build w = (Return retObject, w') ->
  In key (keys (_fieldDefs this)) ->
  hasOwnProperty key (object w) = true ->
  is_undefined (get key (object w)) = false ->
  key <> "_id" -> key <> "_c" -> key <> "_u" ->
  lookup key retObject =
  Some (match def_of (_fieldDefs this) key with
        | DString => getValue StringType (get key (object w'))
        | DBoolean => getValue BooleanType (get key (object w'))
        | DDate => getValue DateType (get key (object w'))
        | DNumber => getValue NumberType (get key (object w'))
        | DObject _ => get key (object w')
        | DArray _ => get key (object w')
        | DOther => VNull
        end).
Proof.
  rewrite build_eq.
  destruct (fields declared [] w) as [[r|e] w1] eqn:Hf; [|discriminate].
  intros [= <- <-] Hdecl Hown Hdef Hid Hc Hu.
  pose proof (build_fields_result _ _ _ _ _ _ _ _ _ (for_in_NoDup _)
                _ _ _ _ Hf key) as Hx.
  assert (Hin : existsb (String.eqb key) declared = true).
  { apply existsb_exists. exists key. rewrite for_in_keys, String.eqb_refl.
    auto. }
  unfold built in Hx. rewrite Hin, Hown, Hdef in Hx. simpl in Hx.
  rewrite lookup_structural by (assumption || (intros ->; congruence)).
  now rewrite Hx, getValue_table.
Qed.

(** C3.  A field declared as an array of [Boolean], [Date] or [Number]
    is not validated at all, every value is accepted, and its value is
    passed through without coercion. *)
Theorem scalar_array_unchecked key v :
  instanceof_Array (def_of (_fieldDefs this) key) = true ->
  In (first (def_of (_fieldDefs this) key)) [DBoolean; DDate; DNumber] ->
  validateField key v = Return true /\ getValue_ key v = v.
Proof.
  intros Ha Hk. rewrite validateField_table, getValue_table.
  destruct (def_of (_fieldDefs this) key) as [| | | |props|elems|];
    try discriminate.
  split; [|reflexivity]. unfold validation.
  destruct elems as [|d rest]; simpl in Hk;
    destruct Hk as [H|[H|[H|[]]]]; try discriminate; subst d; reflexivity.
Qed.

(** C6, as amended.  On a [plain] source: when the loop has built the
    fields enumerated before [key] and the value of [key], as it stands
    after reference collapsing, is rejected by the validator its
    definition is dispatched to and has the default rendering, [build]
    throws an [Error] and returns no result.  The text is the one of
    this field alone, whatever fields follow: it contains the name of
    the owning model, the key and the rendering of the rejected
    value. *)
Theorem invalid_field_failure w m before key after retObject w1 w2
    accepts expected :
  plain (object w) = true ->
  _model this = Some m ->
  declared = (before ++ key :: after)%list ->
  fields before [] w = (Return retObject, w1) ->
  hasOwnProperty key (object w1) = true ->
  is_undefined (get key (object w1)) = false ->
  (if cleanRefs then _depopulate this key else ret tt) w1 = (Return tt, w2) ->
  validation StringType BooleanType DateType NumberType RefType
    (def_of (_fieldDefs this) key) = Some (accepts, expected) ->
  accepts (get key (object w2)) = false ->
  renders (get key (object w2)) = true ->
  exists text,
    text = processing_text (_modelName m)
             (invalid_text (_modelName m) key expected
                (get key (object w2)))
    /\ build w = (Throw (Error text), warned text w2)
    /\ includes (_modelName m) text = true
    /\ includes key text = true
    /\ includes (to_string (get key (object w2))) text = true.
Proof.
  intros _ Hm Hdecl Hbefore Hown Hdef Hcol Hval Hrej _.
  exists (processing_text (_modelName m)
            (invalid_text (_modelName m) key expected (get key (object w2)))).
  split; [reflexivity|].
  split; [|unfold processing_text, invalid_text; repeat split; find_in_text].
  rewrite build_eq, Hdecl, build_fields_app, Hbefore.
  simpl. unfold bind. rewrite build_field_eq.
  rewrite Hown, Hdef, Hcol. simpl.
  rewrite validateField_table, Hval, Hrej.
  unfold this_modelName. rewrite Hm. reflexivity.
Qed.

End BuildTheorems.

Section NullReferences.
Variables StringType BooleanType DateType NumberType RefType : FieldType.
Variable this : Schema.
Variables removeId includeDeletes : bool.

Local Abbreviation fields :=
  (build_fields StringType BooleanType DateType NumberType RefType this
     includeDeletes true).




End NullReferences.

(** ** Relationship and virtual-field resolution *)

Section Resolution.
Variable this : Schema.

Lemma populate_one_eq p w :
  populate_one this p w =
  match _models this, _model this with
  | None, _ => (Throw (cannot_read "find" "null"), w)
  | Some _, None => (Throw (cannot_read "_modelSchema" "null"), w)
  | Some models, Some owner =>
      let path := Populate.path p in
      let model := find_model models (Populate.model p) in
      if instanceof_Array (def_of (_modelSchema_fieldDefs owner) path) then
        match (if truthy (get path (object w))
                  && greater_than_zero (length_of (get path (object w)))
               then asyncForEach (indexed (get path (object w)))
                      (fetch_into model) []
               else ret []) w with
        | (Return results, w') => (Return tt, put path (VArr results) w')
        | (Throw e, w') => (Throw e, w')
        end
      else if defined (get path (object w)) then
        match call_findById model (get path (object w)) true w with
        | (Return res, w') => (Return tt, put path res w')
        | (Throw e, w') => (Throw e, w')
        end
      else (Return tt, w)
  end.
Proof.
  unfold populate_one, this_models, this_model_fieldDefs.
  unfold bind at 1. unfold lift at 1.
  destruct (_models this) as [models|]; [|reflexivity].
  unfold bind at 1. unfold lift at 1.
  destruct (_model this) as [owner|]; [|reflexivity].
  cbv zeta.
  destruct (instanceof_Array _).
  - unfold bind at 1. unfold read_object at 1. cbv beta iota.
    unfold bind at 1. fold fetch_into. reflexivity.
  - unfold bind at 1. unfold read_object at 1. cbv beta iota.
    unfold defined.
    destruct (negb (is_undefined (get (Populate.path p) (object w))));
      reflexivity.
Qed.

Lemma fetch_all target doc ids :
  (forall id, In id ids -> id <> VUndefined ->
              findById target id true = Return (doc id)) ->
  forall acc w,
    asyncForEach ids (fetch_into (Some target)) acc w =
    (Return (acc ++ map doc (filter defined ids))%list,
     asked (map (fun id => FindById (_modelName target) id true)
              (filter defined ids)) w).
Proof.
  induction ids as [|r ids IH]; intros Hdoc acc w; simpl.
  - unfold ret, asked. rewrite !app_nil_r. now destruct w.
  - unfold bind at 1. unfold fetch_into at 1. fold (defined r).
    destruct (defined r) eqn:Hr.
    + unfold call_findById, bind, issue, lift, ret. simpl.
      rewrite (Hdoc r) by (try (now left); intros ->; discriminate).
      rewrite IH by (intros id Hin; apply Hdoc; now right).
      unfold asked. simpl. now rewrite <- !app_assoc.
    + unfold ret at 1. apply IH. intros id Hin. apply Hdoc. now right.
Qed.

Lemma fetch_unresolved ids : forall acc w,
  asyncForEach ids (fetch_into None) acc w =
  if existsb defined ids
  then (Throw (cannot_read "findById" "undefined"), w)
  else (Return acc, w).
Proof.
  induction ids as [|r ids IH]; intros acc w; simpl; [reflexivity|].
  unfold bind at 1. unfold fetch_into at 1. fold (defined r).
  destruct (defined r); simpl; [reflexivity | apply IH].
Qed.

Lemma call_findById_world model id nested w r w' :
  call_findById model id nested w = (r, w') ->
  object w' = object w /\ console w' = console w.
Proof.
  unfold call_findById. destruct model as [m|].
  - unfold bind, issue, lift. now intros [= <- <-].
  - unfold throw. now intros [= <- <-].
Qed.

Lemma asyncForEach_world model ids : forall acc w r w',
  asyncForEach ids (fetch_into model) acc w = (r, w') ->
  object w' = object w /\ console w' = console w.
Proof.
  induction ids as [|x ids IH]; intros acc w r w'; simpl.
  - now intros [= <- <-].
  - unfold bind at 1. unfold fetch_into at 1.
    destruct (negb (is_undefined x)).
    + unfold bind at 1.
      destruct (call_findById model x true w) as [[res|e] w1] eqn:Hc;
        apply call_findById_world in Hc; destruct Hc as [Ho Hc].
      * unfold ret at 1. intros H. apply IH in H. destruct H. split; congruence.
      * intros [= <- <-]. auto.
    + unfold ret at 1. apply IH.
Qed.

(** A round of [_doPopulates] writes to the field of its descriptor
    only. *)
Lemma populate_one_other p w r w' x :
  populate_one this p w = (r, w') ->
  x <> Populate.path p ->
  lookup x (object w') = lookup x (object w).
Proof.
  rewrite populate_one_eq. intros H Hx.
  destruct (_models this) as [models|]; [|now injection H as _ <-].
  destruct (_model this) as [owner|]; [|now injection H as _ <-].
  cbv zeta in H.
  destruct (instanceof_Array _).
  - destruct (truthy (get (Populate.path p) (object w))
              && greater_than_zero
                   (length_of (get (Populate.path p) (object w)))).
    + destruct (asyncForEach _ _ _ w) as [[res|e] w1] eqn:Ha;
        apply asyncForEach_world in Ha; destruct Ha as [Ho _];
        injection H as _ <-; simpl; rewrite ?lookup_set_other by assumption;
        now rewrite Ho.
    + unfold ret in H. injection H as _ <-. simpl.
      now rewrite lookup_set_other.
  - destruct (defined (get (Populate.path p) (object w)));
      [|now injection H as _ <-].
    destruct (call_findById _ _ _ w) as [[res|e] w1] eqn:Hc;
      apply call_findById_world in Hc; destruct Hc as [Ho _];
      injection H as _ <-; simpl; rewrite ?lookup_set_other by assumption;
      now rewrite Ho.
Qed.

Lemma populate_each_other ps : forall w r w' x,
  populate_each this ps w = (r, w') ->
  ~ In x (map Populate.path ps) ->
  lookup x (object w') = lookup x (object w).
Proof.
  induction ps as [|p ps IH]; intros w r w' x; simpl.
  - now intros [= <- <-].
  - unfold bind at 1.
    destruct (populate_one this p w) as [[[]|e] w1] eqn:Hp; intros H Hx;
      assert (Hp' : x <> Populate.path p) by (intros ->; apply Hx; now left);
      assert (Hps : ~ In x (map Populate.path ps))
        by (intros Hin; apply Hx; now right).
    + rewrite (IH _ _ _ _ H Hps).
      apply (populate_one_other _ _ _ _ _ Hp Hp').
    + injection H as _ <-.
      apply (populate_one_other _ _ _ _ _ Hp Hp').
Qed.

Lemma populate_each_app before after w :
  populate_each this (before ++ after)%list w =
  match populate_each this before w with
  | (Return _, w') => populate_each this after w'
  | (Throw e, w') => (Throw e, w')
  end.
Proof.
  revert w. induction before as [|p before IH]; intros w; simpl;
    [reflexivity|].
  unfold bind.
  destruct (populate_one this p w) as [[[]|e] w1]; [apply IH | reflexivity].
Qed.

Lemma virtual_each_app before after w :
  virtual_each this (before ++ after)%list w =
  match virtual_each this before w with
  | (Return _, w') => virtual_each this after w'
  | (Throw e, w') => (Throw e, w')
  end.
Proof.
  revert w. induction before as [|v before IH]; intros w; simpl;
    [reflexivity|].
  unfold bind.
  destruct (virtual_one this v w) as [[[]|e] w1]; [apply IH | reflexivity].
Qed.

Lemma virtual_one_unresolved models v w :
  _models this = Some models ->
  find_model models (VirtualDef.ref (Virtual.virtualDef v)) = None ->
  virtual_one this v w = (Throw (cannot_read "find" "undefined"), w).
Proof.
  intros Hms Hfind. unfold virtual_one, this_models.
  rewrite Hms. unfold bind, lift, read_object. rewrite Hfind. reflexivity.
Qed.

Lemma populate_one_unresolved models owner p w :
  _models this = Some models ->
  _model this = Some owner ->
  find_model models (Populate.model p) = None ->
  let path := Populate.path p in
  let array_field :=
    instanceof_Array (def_of (_modelSchema_fieldDefs owner) path) in
  populate_one this p w =
  if needs_fetch array_field (get path (object w))
  then (Throw (cannot_read "findById" "undefined"), w)
  else (Return tt, if array_field then put path (VArr []) w else w).
Proof.
  intros Hms Hm Hfind. cbv zeta.
  rewrite populate_one_eq, Hms, Hm, Hfind. cbv zeta. unfold needs_fetch.
  destruct (instanceof_Array _).
  - destruct (truthy (get (Populate.path p) (object w))
              && greater_than_zero
                   (length_of (get (Populate.path p) (object w)))); simpl.
    + rewrite fetch_unresolved.
      now destruct (existsb defined
                      (indexed (get (Populate.path p) (object w)))).
    + reflexivity.
  - now destruct (defined (get (Populate.path p) (object w))).
Qed.

(** C2, as amended.  A target model name that the registry does not
    resolve is not handled: the lookup yields [undefined] and the first
    query through it throws a [TypeError].  A virtual descriptor with
    such a target always throws; a populate descriptor throws as soon as
    a value has to be fetched (a defined single reference, an array
    with a defined element) and completes silently only when there is
    nothing to fetch, storing the empty array for an array field and
    leaving a single reference untouched. *)
Theorem unresolved_target_outcome models owner :
  _models this = Some models ->
  _model this = Some owner ->
  (forall p w,
     find_model models (Populate.model p) = None ->
     let path := Populate.path p in
     let array_field :=
       instanceof_Array (def_of (_modelSchema_fieldDefs owner) path) in
     populate_one this p w =
     if needs_fetch array_field (get path (object w))
     then (Throw (cannot_read "findById" "undefined"), w)
     else (Return tt, if array_field then put path (VArr []) w else w))
  /\ (forall before p after w w1,
        _populates this = (before ++ p :: after)%list ->
        populate_each this before w = (Return tt, w1) ->
        find_model models (Populate.model p) = None ->
        needs_fetch
          (instanceof_Array
             (def_of (_modelSchema_fieldDefs owner) (Populate.path p)))
          (get (Populate.path p) (object w1)) = true ->
        _doPopulates this w
        = (Throw (cannot_read "findById" "undefined"), w1))
  /\ (forall before v after w w1,
        _virtuals this = (before ++ v :: after)%list ->
        virtual_each this before w = (Return tt, w1) ->
        find_model models (VirtualDef.ref (Virtual.virtualDef v)) = None ->
        _doVirtuals this w = (Throw (cannot_read "find" "undefined"), w1)).
Proof.
  intros Hms Hm. split; [|split].
  - intros p w Hfind. now apply (populate_one_unresolved models owner).
  - intros before p after w w1 Hreg Hbefore Hfind Hneed.
    unfold _doPopulates. unfold bind at 1.
    rewrite Hreg, populate_each_app, Hbefore. simpl. unfold bind at 1.
    rewrite (populate_one_unresolved models owner) by assumption.
    cbv zeta. now rewrite Hneed.
  - intros before v after w w1 Hreg Hbefore Hfind.
    unfold _doVirtuals. unfold bind at 1.
    rewrite Hreg, virtual_each_app, Hbefore. simpl. unfold bind at 1.
    now rewrite (virtual_one_unresolved models).
Qed.

(** C8.  For a field declared as an array and a resolved target model
    that returns a document for every identity: the round of the
    descriptor fetches the defined elements one after the other, in the
    order of the array, and replaces the field with the documents in
    that order; when the field is absent or holds the empty array it is
    replaced with the empty array and no request is issued.  The field
    still holds that array when [_doPopulates] returns. *)
Theorem populate_array_in_order w owner models target p before after w1
    ids doc w3 :
  _model this = Some owner ->
  _models this = Some models ->
  find_model models (Populate.model p) = Some target ->
  instanceof_Array
    (def_of (_modelSchema_fieldDefs owner) (Populate.path p)) = true ->
  _populates this = (before ++ p :: after)%list ->
  ~ In (Populate.path p) (map Populate.path after) ->
  populate_each this before w = (Return tt, w1) ->
  (get (Populate.path p) (object w1) = VArr ids
   \/ (get (Populate.path p) (object w1) = VUndefined /\ ids = [])) ->
  (forall id, In id ids -> id <> VUndefined ->
              findById target id true = Return (doc id)) ->
  let fetched := filter defined ids in
  let w2 :=
    put (Populate.path p) (VArr (map doc fetched))
      (asked (map (fun id => FindById (_modelName target) id true) fetched)
         w1) in
  populate_each this after w2 = (Return tt, w3) ->
  populate_one this p w1 = (Return tt, w2)
  /\ (ids = [] -> requests w2 = requests w1)
  /\ _doPopulates this w = (Return (object w3), w3)
  /\ get (Populate.path p) (object w3) = VArr (map doc fetched).
Proof.
  intros Hm Hms Hfind Harr Hreg Hfresh Hbefore Hval Hdoc fetched w2 Hafter.
  assert (Hone : populate_one this p w1 = (Return tt, w2)).
  { rewrite populate_one_eq, Hms, Hm, Hfind. cbv zeta. rewrite Harr.
    destruct Hval as [Hv|[Hv ->]]; rewrite Hv.
    - destruct ids as [|id ids'].
      + simpl. unfold ret, w2, fetched, put, asked. simpl.
        now rewrite app_nil_r.
      + assert (Hlen : truthy (VArr (id :: ids'))
                       && greater_than_zero (length_of (VArr (id :: ids')))
                       = true).
        { simpl truthy. simpl length_of. unfold greater_than_zero.
          simpl andb. apply Z.ltb_lt. lia. }
        rewrite Hlen. unfold indexed.
        rewrite (fetch_all target doc) by assumption. reflexivity.
    - simpl. unfold ret, w2, fetched, put, asked. simpl.
      now rewrite app_nil_r. }
  split; [exact Hone|]. split; [|split].
  - intros ->. unfold w2, fetched. simpl. now rewrite app_nil_r.
  - unfold _doPopulates. unfold bind at 1.
    rewrite Hreg, populate_each_app, Hbefore. simpl. unfold bind at 1.
    now rewrite Hone, Hafter.
  - rewrite (get_lookup _ _ _ (populate_each_other _ _ _ _ _ Hafter Hfresh)).
    unfold w2, get. simpl. now rewrite lookup_set_same.
Qed.

End Resolution.

(** ** Registration *)

Section Registries.
Context {A : Type}.
Variable key : A -> string.
Implicit Types (entry : A) (registry : list A).

Lemma find_none k registry :
  List.find (fun p => key p =? k) registry = None <->
  ~ In k (map key registry).
Proof.
  induction registry as [|p registry IH]; simpl; [tauto|].
  destruct (String.eqb_spec (key p) k) as [E|Hne].
  - split; [discriminate | tauto].
  - rewrite IH. tauto.
Qed.

Lemma registered_none k registry :
  ~ In k (map key registry) -> registered key k registry = [].
Proof.
  induction registry as [|p registry IH]; simpl; [reflexivity|].
  intros H. destruct (String.eqb_spec (key p) k) as [E|Hne]; [tauto|].
  apply IH. tauto.
Qed.

Lemma registered_found k registry found :
  NoDup (map key registry) ->
  List.find (fun p => key p =? k) registry = Some found ->
  registered key k registry = [found].
Proof.
  induction registry as [|p registry IH]; simpl; [discriminate|].
  intros Hnd. inversion Hnd as [|? ? Hp Hrest]; subst.
  destruct (String.eqb_spec (key p) k) as [E|Hne].
  - intros [= ->]. subst k. now rewrite registered_none.
  - apply IH; assumption.
Qed.

Lemma registered_app k registry more :
  registered key k (registry ++ more)
  = (registered key k registry ++ registered key k more)%list.
Proof. apply filter_app. Qed.

Lemma push_found entry registry found :
  List.find (fun p => key p =? key entry) registry = Some found ->
  push_unless_found key entry registry = registry.
Proof. unfold push_unless_found. now intros ->. Qed.

Lemma push_fresh entry registry :
  List.find (fun p => key p =? key entry) registry = None ->
  push_unless_found key entry registry = (registry ++ [entry])%list.
Proof. unfold push_unless_found. now intros ->. Qed.

Lemma push_grows entry registry :
  exists more, push_unless_found key entry registry = (registry ++ more)%list.
Proof.
  unfold push_unless_found.
  destruct (List.find _ registry); [exists [] | exists [entry]];
    now rewrite ?app_nil_r.
Qed.

Lemma push_NoDup entry registry :
  NoDup (map key registry) ->
  NoDup (map key (push_unless_found key entry registry)).
Proof.
  intros Hnd. unfold push_unless_found.
  destruct (List.find _ registry) eqn:Hf; [assumption|].
  apply find_none in Hf. rewrite map_app. simpl.
  apply NoDup_app; [assumption | repeat constructor; auto |].
  intros x Hx [<-|[]]. contradiction.
Qed.

Lemma push_registers entry registry :
  In (key entry) (map key (push_unless_found key entry registry)).
Proof.
  unfold push_unless_found.
  destruct (List.find _ registry) eqn:Hf.
  - destruct (in_dec string_dec (key entry) (map key registry)) as [H|H];
      [assumption|]. apply find_none in H. congruence.
  - rewrite map_app. apply in_or_app. right. now left.
Qed.

(** Registering two entries under one key. *)
Lemma push_twice first second registry :
  NoDup (map key registry) ->
  key first = key second ->
  let stored :=
    push_unless_found key second (push_unless_found key first registry) in
  stored = push_unless_found key first registry
  /\ registered key (key first) stored = [first_of key first registry]
  /\ (~ In (key first) (map key registry) ->
      stored = (registry ++ [first])%list).
Proof.
  intros Hnd Hkey stored.
  assert (Hsame : stored = push_unless_found key first registry).
  { unfold stored.
    destruct (List.find (fun p => key p =? key second)
                (push_unless_found key first registry)) as [found|] eqn:Hf.
    - now apply push_found with found.
    - apply find_none in Hf. rewrite <- Hkey in Hf.
      elim Hf. apply push_registers. }
  split; [exact Hsame|]. rewrite Hsame. unfold first_of. split.
  - destruct (List.find (fun p => key p =? key first) registry)
      as [found|] eqn:Hf.
    + rewrite (push_found _ _ _ Hf). now apply registered_found.
    + rewrite (push_fresh _ _ Hf), registered_app.
      apply find_none in Hf. rewrite (registered_none _ _ Hf).
      simpl. now rewrite String.eqb_refl.
  - intros Hfresh. apply push_fresh. now apply find_none.
Qed.
End Registries.

Lemma reachable_unique_keys s : reachable s -> unique_keys s.
Proof.
  induction 1 as [defs|c s Hs IH].
  - repeat split; constructor.
  - destruct IH as (Hp & Ho & Hv & Hu).
    destruct c; simpl; repeat split; simpl; auto using push_NoDup.
Qed.

(** A call keeps every entry of every registry. *)
Lemma perform_grows c s :
  (exists more, _populates (perform c s) = (_populates s ++ more)%list)
  /\ (exists more, _preOps (perform c s) = (_preOps s ++ more)%list)
  /\ (exists more, _virtuals (perform c s) = (_virtuals s ++ more)%list)
  /\ (exists more, _uploads (perform c s) = (_uploads s ++ more)%list).
Proof.
  destruct c; simpl; repeat split;
    first [apply push_grows | exists []; now rewrite app_nil_r].
Qed.

(** C9.  On a schema built by the constructor and any sequence of
    calls: registering two entries under one key, in each of the four
    registries, leaves the schema as the first registration left it,
    with exactly one entry stored under the key (the one registered
    first: an older entry with that key if there was one, the first of
    the two otherwise), and no call removes an entry from a
    registry. *)
Theorem registries_keep_first s :
  reachable s ->
  (forall first second,
     Populate.path first = Populate.path second ->
     populate second (populate first s) = populate first s
     /\ registered Populate.path (Populate.path first)
          (_populates (populate second (populate first s)))
        = [first_of Populate.path first (_populates s)])
  /\ (forall operation cb cb',
        let first := {| PreOp.operation := operation; PreOp.cb := cb |} in
        pre operation cb' (pre operation cb s) = pre operation cb s
        /\ registered PreOp.operation operation
             (_preOps (pre operation cb' (pre operation cb s)))
           = [first_of PreOp.operation first (_preOps s)])
  /\ (forall fieldName virtualDef virtualDef',
        let first := {| Virtual.fieldName := fieldName;
                        Virtual.virtualDef := virtualDef |} in
        virtual fieldName virtualDef' (virtual fieldName virtualDef s)
        = virtual fieldName virtualDef s
        /\ registered Virtual.fieldName fieldName
             (_virtuals (virtual fieldName virtualDef'
                           (virtual fieldName virtualDef s)))
           = [first_of Virtual.fieldName first (_virtuals s)])
  /\ (forall storagePath storagePath' path,
        let first := {| Upload.storagePath := storagePath;
                        Upload.path := path |} in
        upload storagePath' path (upload storagePath path s)
        = upload storagePath path s
        /\ registered Upload.path path
             (_uploads (upload storagePath' path (upload storagePath path s)))
           = [first_of Upload.path first (_uploads s)])
  /\ (forall c,
        (exists more, _populates (perform c s) = (_populates s ++ more)%list)
        /\ (exists more, _preOps (perform c s) = (_preOps s ++ more)%list)
        /\ (exists more, _virtuals (perform c s) = (_virtuals s ++ more)%list)
        /\ (exists more, _uploads (perform c s) = (_uploads s ++ more)%list)).
Proof.
  intros Hs. destruct (reachable_unique_keys s Hs) as (Hp & Ho & Hv & Hu).
  repeat apply conj.
  - intros first second Hkey.
    destruct (push_twice Populate.path first second _ Hp Hkey) as (E & R & _).
    unfold populate at 1 3. simpl. rewrite E. split; [reflexivity|].
    rewrite <- E. exact R.
  - intros operation cb cb' first.
    destruct (push_twice PreOp.operation first
                {| PreOp.operation := operation; PreOp.cb := cb' |}
                _ Ho eq_refl) as (E & R & _).
    unfold pre at 1 3. simpl. fold first. rewrite E. split; [reflexivity|].
    rewrite <- E. exact R.
  - intros fieldName virtualDef virtualDef' first.
    destruct (push_twice Virtual.fieldName first
                {| Virtual.fieldName := fieldName;
                   Virtual.virtualDef := virtualDef' |}
                _ Hv eq_refl) as (E & R & _).
    unfold virtual at 1 3. simpl. fold first. rewrite E. split; [reflexivity|].
    rewrite <- E. exact R.
  - intros storagePath storagePath' path first.
    destruct (push_twice Upload.path first
                {| Upload.storagePath := storagePath'; Upload.path := path |}
                _ Hu eq_refl) as (E & R & _).
    unfold upload at 1 3. simpl. fold first. rewrite E. split; [reflexivity|].
    rewrite <- E. exact R.
  - intros c. apply perform_grows.
Qed.

(** * The statements at concrete inputs *)

Section Instances.
Import Sample.

Local Abbreviation run := Sample.build.

(** C4: a declared key that the source owns with the value
    [undefined] is not a key of the result when [includeDeletes] is not
    set, although it belongs to the intersection of the declared keys
    with the own keys of the source. *)
Lemma unset_key_missing_from_result :
  exists retObject w',
    run posts untitled false false false = (Return retObject, w')
    /\ In "title" (keys (_fieldDefs posts))
    /\ In "title" (keys untitled)
    /\ ~ In "title" (keys retObject).
Proof.
  eexists. eexists. split; [vm_compute; reflexivity|].
  split; [simpl; tauto|]. split; [simpl; tauto|].
  simpl. intros [H|[]]. discriminate.
Qed.

Lemma build_key_set_witness :
  exists retObject w',
    run posts draft false true true = (Return retObject, w')
    /\ forall x,
         In x (keys retObject) <->
         (x = "_id" -> false = false)
         /\ ((In x (keys (_fieldDefs posts))
              /\ hasOwnProperty x draft = true
              /\ (is_undefined (get x draft) = false \/ true = true))
             \/ x = "_id"
             \/ (x = "_c" /\ truthy (get "_c" draft) = true)
             \/ (x = "_u" /\ truthy (get "_u" draft) = true)).
Proof.
  eexists. eexists. split; [vm_compute; reflexivity|].
  eapply (build_key_set StringType BooleanType DateType NumberType RefType
            posts false true true (start draft)).
  vm_compute. reflexivity.
Defined.

(** C7: on a schema that declares [_id], the delete marker written for
    an unset [_id] is overwritten by the copy of [_id] from the source,
    and with [includeDeletes] unset the key is still part of the
    result. *)
Lemma unset_id_not_marked :
  In "_id" (keys (_fieldDefs tagged))
  /\ lookup "_id" [("_id", VUndefined)] = Some VUndefined
  /\ run tagged [("_id", VUndefined)] false true false
     = (Return [("_id", VUndefined)], start [("_id", VUndefined)])
  /\ run tagged [("_id", VUndefined)] false false false
     = (Return [("_id", VUndefined)], start [("_id", VUndefined)]).
Proof. repeat split; simpl; tauto. Qed.

Lemma unset_field_marker_witness :
  exists retObject w',
    run posts draft false true true = (Return retObject, w')
    /\ In "meta" (keys (_fieldDefs posts))
    /\ lookup "meta" draft = Some VUndefined
    /\ "meta" <> "_id"
    /\ (true = true -> lookup "meta" retObject = Some VDelete)
    /\ (true = false -> ~ In "meta" (keys retObject)).
Proof.
  eexists. eexists. split; [vm_compute; reflexivity|].
  assert (Hdecl : In "meta" (keys (_fieldDefs posts))) by (simpl; tauto).
  assert (Hid : "meta" <> "_id") by discriminate.
  repeat (split; [first [exact Hdecl | exact Hid | reflexivity]|]).
  eapply (unset_field_marker StringType BooleanType DateType NumberType
            RefType posts false true true (start draft) _ _ "meta");
    [vm_compute; reflexivity | exact Hdecl | reflexivity | exact Hid].
Defined.

(** C5: with [cleanRefs] set, a build that fails on [tags] has already
    collapsed [author] on the source. *)
Lemma failed_build_collapsed_source :
  exists e w',
    run posts broken false false true = (Throw e, w')
    /\ get "author" broken = VObj [("_id", VStr "u1")]
    /\ get "author" (object w') = VStr "u1"
    /\ object w' <> broken.
Proof.
  eexists. eexists. split; [vm_compute; reflexivity|].
  repeat split. simpl. discriminate.
Qed.

(** C6: with two invalid fields the failure text is about the first
    one only; the key of the second does not occur in it. *)
Lemma invalid_field_text_first_only :
  exists text w',
    run posts twice_invalid false false false = (Throw (Error text), w')
    /\ In "author" (keys (_fieldDefs posts))
    /\ lookup "author" twice_invalid = Some (VNum 7)
    /\ validate RefType (VNum 7) = false
    /\ includes "author" text = false.
Proof.
  eexists. eexists. split; [vm_compute; reflexivity|].
  repeat split. simpl. tauto.
Qed.

Lemma invalid_field_failure_witness :
  plain (object (start twice_invalid)) = true
  /\ _model posts = Some Post
  /\ for_in (_fieldDefs posts)
     = ([] ++ "title" :: ["author"; "likes"; "scores"; "tags"; "meta"])%list
  /\ build_fields StringType BooleanType DateType NumberType RefType posts
       false false [] [] (start twice_invalid)
     = (Return [], start twice_invalid)
  /\ hasOwnProperty "title" (object (start twice_invalid)) = true
  /\ is_undefined (get "title" (object (start twice_invalid))) = false
  /\ validation StringType BooleanType DateType NumberType RefType
       (def_of (_fieldDefs posts) "title")
     = Some (validate StringType, "String")
  /\ validate StringType (get "title" (object (start twice_invalid))) = false
  /\ renders (get "title" (object (start twice_invalid))) = true
  /\ exists text,
       text = processing_text (_modelName Post)
                (invalid_text (_modelName Post) "title" "String"
                   (get "title" (object (start twice_invalid))))
       /\ run posts twice_invalid false false false
          = (Throw (Error text), warned text (start twice_invalid))
       /\ includes (_modelName Post) text = true
       /\ includes "title" text = true
       /\ includes (to_string (get "title" (object (start twice_invalid))))
            text = true.
Proof.
  repeat (split; [reflexivity|]).
  apply (invalid_field_failure StringType BooleanType DateType NumberType
           RefType posts false false false (start twice_invalid) Post
           [] "title" ["author"; "likes"; "scores"; "tags"; "meta"]
           [] (start twice_invalid) (start twice_invalid)
           (validate StringType) "String"); reflexivity.
Defined.


(** C1 at the reference field [author] and C3 at [scores], declared as
    an array of [Number]. *)
Lemma stored_field_value_witness :
  exists retObject w',
    run posts draft false true true = (Return retObject, w')
    /\ lookup "author" retObject = Some (get "author" (object w')).
Proof.
  eexists. eexists. split; [vm_compute; reflexivity|].
  eapply (stored_field_value StringType BooleanType DateType NumberType
            RefType posts false true true (start draft) _ _ "author");
    [vm_compute; reflexivity | simpl; tauto | reflexivity | reflexivity
     | discriminate | discriminate | discriminate].
Defined.

Lemma scalar_array_unchecked_witness :
  validateArray NumberType (VStr "oops") = false
  /\ _validateField StringType BooleanType DateType NumberType RefType
       posts "scores" (VStr "oops") = Return true
  /\ _getValue StringType BooleanType DateType NumberType RefType
       posts "scores" (VStr "oops") = VStr "oops".
Proof.
  split; [reflexivity|].
  apply (scalar_array_unchecked StringType BooleanType DateType NumberType
           RefType posts "scores" (VStr "oops")); [reflexivity|].
  simpl. tauto.
Defined.

(** C2: an unresolved target makes both resolutions throw. *)
Lemma unresolved_target_throws :
  find_model [User; Post] (Populate.model ghost_author) = None
  /\ find_model [User; Post] (VirtualDef.ref ghost_comments) = None
  /\ _doPopulates haunted (start stored)
     = (Throw (cannot_read "findById" "undefined"), start stored)
  /\ _doVirtuals haunted (start stored)
     = (Throw (cannot_read "find" "undefined"), start stored).
Proof. repeat split. Qed.

Lemma unresolved_target_outcome_witness :
  _models haunted = Some [User; Post]
  /\ _model haunted = Some Post
  /\ _doPopulates haunted (start stored)
     = (Throw (cannot_read "findById" "undefined"), start stored)
  /\ _doVirtuals haunted (start stored)
     = (Throw (cannot_read "find" "undefined"), start stored)
  /\ populate_one haunted ghost_author (start untitled)
     = (Return tt, start untitled).
Proof.
  destruct (unresolved_target_outcome haunted [User; Post] Post
              eq_refl eq_refl) as (Hone & Hpop & Hvirt).
  split; [reflexivity|]. split; [reflexivity|]. split; [|split].
  - apply (Hpop [] ghost_author [] (start stored) (start stored));
      reflexivity.
  - apply (Hvirt [] {| Virtual.fieldName := "comments";
                       Virtual.virtualDef := ghost_comments |} []
             (start stored) (start stored)); reflexivity.
  - apply (Hone ghost_author (start untitled)). reflexivity.
Defined.

(** C8 at an array with an [undefined] element. *)
Lemma populate_array_in_order_witness :
  _doPopulates populated (start stored)
  = (Return
       [("_id", VStr "p1"); ("author", VStr "u1");
        ("likes", VArr [user "u1"; user "u2"])],
     {| object := [("_id", VStr "p1"); ("author", VStr "u1");
                   ("likes", VArr [user "u1"; user "u2"])];
        console := [];
        requests := [FindById "User" (VStr "u1") true;
                     FindById "User" (VStr "u2") true] |}).
Proof.
  destruct (populate_array_in_order populated (start stored) Post
              [User; Post] User likes [] [] (start stored)
              [VStr "u1"; VUndefined; VStr "u2"] document
              (put "likes" (VArr [user "u1"; user "u2"])
                 (asked [FindById "User" (VStr "u1") true;
                         FindById "User" (VStr "u2") true] (start stored)))
              eq_refl eq_refl eq_refl eq_refl eq_refl (fun H => H) eq_refl
              (or_introl eq_refl) (fun _ _ _ => eq_refl) eq_refl)
    as (_ & _ & H & _).
  exact H.
Defined.

(** C9 on the schema of posts. *)
Lemma registries_keep_first_witness :
  reachable posts
  /\ registered Populate.path "likes"
       (_populates (populate {| Populate.path := "likes";
                                Populate.model := "Ghost" |}
                      (populate likes posts)))
     = [likes].
Proof.
  assert (Hr : reachable posts)
    by exact (reachable_call (Call_setModel Post) _
                (reachable_new post_defs)).
  split; [exact Hr|].
  destruct (registries_keep_first posts Hr) as (Hp & _).
  apply (Hp likes {| Populate.path := "likes"; Populate.model := "Ghost" |}).
  reflexivity.
Defined.

End Instances.

(** * Further properties of the schema *)

(** ** Validation and reference collapsing *)

Lemma set_same {A} k (v : A) o : lookup k o = Some v -> set k v o = o.
Proof.
  induction o as [|[k' v'] o IH]; simpl; [discriminate|].
  destruct (String.eqb_spec k' k) as [->|Hne].
  - now intros [= ->].
  - intros H. now rewrite IH.
Qed.

Lemma put_same key v w : lookup key (object w) = Some v -> put key v w = w.
Proof. intros H. unfold put. rewrite (set_same _ _ _ H). now destruct w. Qed.

Lemma depopulate_elems_map elems :
  ~ In VNull elems ->
  forall acc,
    depopulate_elems elems acc = Return (acc ++ map identity_of elems)%list.
Proof.
  induction elems as [|v rest IH]; intros Hnull acc; simpl.
  - now rewrite app_nil_r.
  - assert (Hrest : ~ In VNull rest) by (intros H; apply Hnull; now right).
    assert (Hv : v <> VNull) by (intros ->; apply Hnull; now left).
    destruct v; try congruence; simpl; rewrite (IH Hrest);
      now rewrite <- app_assoc.
Qed.

Lemma map_identity_of_bare elems :
  forallb (fun v => negb (is_object v)) elems = true ->
  map identity_of elems = elems.
Proof.
  induction elems as [|v rest IH]; simpl; [reflexivity|].
  intros H. apply andb_true_iff in H. destruct H as [Hv Hrest].
  rewrite (IH Hrest). unfold identity_of.
  apply negb_true_iff in Hv. now rewrite Hv.
Qed.

Section Collapsing.
Variables StringType BooleanType DateType NumberType RefType : FieldType.
Variable this : Schema.

(** X1.  [_validateField] answers [false] exactly for a key whose
    definition has none of the recognised shapes (an absent key
    included); for every other definition it answers [true] or throws.
    For such a key [_getValue] answers [null]. *)
Theorem validateField_false_unrecognised key v :
  (_validateField StringType BooleanType DateType NumberType RefType this
     key v = Return false
   <-> def_of (_fieldDefs this) key = DOther)
  /\ (def_of (_fieldDefs this) key = DOther ->
      _getValue StringType BooleanType DateType NumberType RefType this
        key v = VNull).
Proof.
  split; [|intros H; now rewrite getValue_table, H].
  rewrite validateField_table. unfold validation.
  assert (Hchk : forall (accepts : bool) expected,
    (if accepts then Return true
     else and_then (this_modelName this)
            (fun name => Throw (Error (invalid_text name key expected v))))
    <> Return false).
  { intros accepts expected. destruct accepts; [discriminate|].
    destruct (this_modelName this); discriminate. }
  destruct (def_of (_fieldDefs this) key) as [| | | |props|elems|];
    try (split; [intros H; now apply Hchk in H | discriminate]).
  - destruct (is_ref (DObject props));
      (split; [intros H; try discriminate; now apply Hchk in H
              | discriminate]).
  - destruct (is_String (first (DArray elems)));
      [|destruct (is_ref (first (DArray elems)))];
      (split; [intros H; try discriminate; now apply Hchk in H
              | discriminate]).
  - split; reflexivity.
Qed.

Lemma collapse_array key w elems :
  instanceof_Array (def_of (_fieldDefs this) key) = true ->
  is_ref (first (def_of (_fieldDefs this) key)) = true ->
  get key (object w) = VArr elems ->
  ~ In VNull elems ->
  _depopulate this key w
  = (Return tt, put key (VArr (map identity_of elems)) w).
Proof.
  intros Ha Hr Hv Hnull. unfold _depopulate.
  rewrite Ha, Hr. simpl.
  assert (Hnot : is_ref (def_of (_fieldDefs this) key) = false).
  { destruct (def_of (_fieldDefs this) key); try discriminate.
    reflexivity. }
  rewrite Hnot. unfold bind, read_object, lift, assign, ret, put; simpl.
  rewrite Hv. simpl. now rewrite (depopulate_elems_map _ Hnull).
Qed.

Lemma collapse_single key w :
  is_ref (def_of (_fieldDefs this) key) = true ->
  get key (object w) <> VNull ->
  _depopulate this key w
  = (Return tt, put key (identity_of (get key (object w))) w).
Proof.
  intros Hr Hv. unfold _depopulate.
  assert (Hnot : instanceof_Array (def_of (_fieldDefs this) key) = false).
  { destruct (def_of (_fieldDefs this) key); try discriminate.
    reflexivity. }
  rewrite Hnot, Hr. simpl.
  unfold bind, read_object, lift, assign, ret, put, identity_of; simpl.
  destruct (get key (object w)); try reflexivity. congruence.
Qed.

(** X2.  Reference collapsing replaces every structured element of an
    array of references with its [_id] and keeps the bare identities, in
    the order of the array; on a single reference it does the same to
    the value. *)
Theorem depopulate_collapses key w :
  (forall elems,
     instanceof_Array (def_of (_fieldDefs this) key) = true ->
     is_ref (first (def_of (_fieldDefs this) key)) = true ->
     get key (object w) = VArr elems ->
     ~ In VNull elems ->
     _depopulate this key w
     = (Return tt, put key (VArr (map identity_of elems)) w))
  /\ (is_ref (def_of (_fieldDefs this) key) = true ->
      get key (object w) <> VNull ->
      _depopulate this key w
      = (Return tt, put key (identity_of (get key (object w))) w)).
Proof.
  split.
  - intros elems. apply collapse_array.
  - apply collapse_single.
Qed.

(** X3.  A field that already holds bare identities is left as it is:
    collapsing a reference whose value is not structured, or an array
    of references without structured elements, returns with the
    document unchanged. *)
Theorem depopulate_bare_unchanged key w :
  (forall v,
     is_ref (def_of (_fieldDefs this) key) = true ->
     lookup key (object w) = Some v ->
     is_object v = false ->
     _depopulate this key w = (Return tt, w))
  /\ (forall elems,
        instanceof_Array (def_of (_fieldDefs this) key) = true ->
        is_ref (first (def_of (_fieldDefs this) key)) = true ->
        lookup key (object w) = Some (VArr elems) ->
        forallb (fun v => negb (is_object v)) elems = true ->
        _depopulate this key w = (Return tt, w)).
Proof.
  split.
  - intros v Hr Hl Hv.
    assert (Hg : get key (object w) = v) by (unfold get; now rewrite Hl).
    rewrite collapse_single;
      [|assumption|rewrite Hg; intros ->; discriminate].
    rewrite Hg. unfold identity_of. rewrite Hv. now rewrite put_same.
  - intros elems Ha Hr Hl Hbare.
    assert (Hg : get key (object w) = VArr elems)
      by (unfold get; now rewrite Hl).
    rewrite (collapse_array key w elems Ha Hr Hg).
    + rewrite (map_identity_of_bare _ Hbare). now rewrite put_same.
    + intros Hin. rewrite forallb_forall in Hbare.
      specialize (Hbare _ Hin). discriminate.
Qed.

(** X4.  What reference collapsing may change: when it throws, the
    world is as it was; when it returns, it has logged nothing, issued
    no request, and every property other than [key] holds the value it
    had. *)
Theorem depopulate_effect key w r w' :
  _depopulate this key w = (r, w') ->
  (forall e, r = Throw e -> w' = w)
  /\ console w' = console w
  /\ requests w' = requests w
  /\ (forall x, x <> key -> lookup x (object w') = lookup x (object w)).
Proof.
  destruct (depopulate_outcome this key w) as [[e H]|[H|[_ [v H]]]];
    rewrite H; intros [= <- <-]; repeat split; auto; try discriminate.
  intros x Hx. simpl. now apply lookup_set_other.
Qed.

End Collapsing.

(** ** More on document build *)

Section BuildOutcome.
Variables StringType BooleanType DateType NumberType RefType : FieldType.
Variable this : Schema.
Variables removeId includeDeletes : bool.

Local Abbreviation validateField :=
  (_validateField StringType BooleanType DateType NumberType RefType this).
Local Abbreviation field cleanRefs :=
  (build_field StringType BooleanType DateType NumberType RefType this
     includeDeletes cleanRefs).
Local Abbreviation fields cleanRefs :=
  (build_fields StringType BooleanType DateType NumberType RefType this
     includeDeletes cleanRefs).
Local Abbreviation build cleanRefs :=
  (_build StringType BooleanType DateType NumberType RefType this
     removeId includeDeletes cleanRefs).
Local Abbreviation passes_ :=
  (passes StringType BooleanType DateType NumberType RefType this).

Lemma build_field_logged cleanRefs key retObject w r w' :
  field cleanRefs key retObject w = (r, w') -> ends_logged this w r w'.
Proof.
  rewrite build_field_eq. unfold ends_logged.
  destruct (hasOwnProperty key (object w)) eqn:Hown; simpl;
    [|now intros [= <- <-]].
  destruct (is_undefined (get key (object w))) eqn:Hdef; simpl.
  - destruct includeDeletes; now intros [= <- <-].
  - destruct ((if cleanRefs then _depopulate this key else ret tt) w)
      as [[[]|e0] w1] eqn:Hc;
      destruct (collapse_collapsed this cleanRefs key w _ w1 Hown Hdef Hc)
        as [Hcon _].
    + destruct (validateField key (get key (object w1))) as [b|e0].
      * intros [= <- <-]. exact Hcon.
      * destruct (_model this) as [m|]; intros [= <- <-]; simpl.
        -- rewrite Hcon. split; [now exists (message e0) | reflexivity].
        -- auto.
    + destruct (_model this) as [m|]; intros [= <- <-]; simpl.
      * rewrite Hcon. split; [now exists (message e0) | reflexivity].
      * auto.
Qed.

Lemma build_fields_logged cleanRefs ks : forall retObject w r w',
  fields cleanRefs ks retObject w = (r, w') -> ends_logged this w r w'.
Proof.
  induction ks as [|k ks IH]; intros retObject w r w'; simpl.
  - now intros [= <- <-].
  - unfold bind.
    destruct (field cleanRefs k retObject w) as [[r1|e] w1] eqn:Hk;
      apply build_field_logged in Hk; simpl in Hk.
    + intros H. apply IH in H. unfold ends_logged in *.
      rewrite Hk in H. exact H.
    + intros [= <- <-]. exact Hk.
Qed.

Lemma build_logged cleanRefs w r w' :
  build cleanRefs w = (r, w') -> ends_logged this w r w'.
Proof.
  rewrite build_eq.
  destruct (fields cleanRefs (for_in (_fieldDefs this)) [] w)
    as [[ret|e] w1] eqn:Hf; apply build_fields_logged in Hf;
    intros [= <- <-]; exact Hf.
Qed.

(** X5.  On a schema with its model attached and a [plain] source, a
    [build] that returns logs nothing, and a [build] that throws throws
    an [Error] that names the model and has logged exactly one warning,
    whose text is the message of that error. *)
Theorem build_warns_what_it_throws cleanRefs m w r w' :
  plain (object w) = true ->
  _model this = Some m ->
  build cleanRefs w = (r, w') ->
  match r with
  | Return _ => console w' = console w
  | Throw e =>
      (exists inner, e = Error (processing_text (_modelName m) inner))
      /\ console w' = (console w ++ [message e])%list
  end.
Proof.
  intros _ Hm H. apply build_logged in H. unfold ends_logged in H.
  rewrite Hm in H. exact H.
Qed.

(** X6.  On a schema without a model every failure of [build] on a
    [plain] source is the [TypeError] of reading [_modelName] on
    [null], whatever went wrong in the field, and nothing is logged. *)
Theorem build_without_model cleanRefs w e w' :
  plain (object w) = true ->
  _model this = None ->
  build cleanRefs w = (Throw e, w') ->
  e = cannot_read "_modelName" "null" /\ console w' = console w.
Proof.
  intros _ Hm H. apply build_logged in H. unfold ends_logged in H.
  rewrite Hm in H. exact H.
Qed.

Lemma build_fields_uncleaned ks : forall retObject w,
  if forallb (passes_ (object w)) ks
  then exists retObject', fields false ks retObject w = (Return retObject', w)
  else exists e w', fields false ks retObject w = (Throw e, w').
Proof.
  induction ks as [|k ks IH]; intros retObject w; simpl.
  - now exists retObject.
  - unfold bind. rewrite build_field_eq. unfold passes at 1.
    destruct (hasOwnProperty k (object w)
              && is_undefined (get k (object w)) && includeDeletes) eqn:Hdel.
    + assert (Hskip : hasOwnProperty k (object w)
                      && negb (is_undefined (get k (object w))) = false).
      { destruct (hasOwnProperty k (object w)); [|reflexivity].
        destruct (is_undefined (get k (object w))); [reflexivity|].
        discriminate. }
      rewrite Hskip. simpl. apply IH.
    + destruct (hasOwnProperty k (object w)
                && negb (is_undefined (get k (object w)))); simpl;
        [|apply IH].
      rewrite validateField_table.
      destruct (validation StringType BooleanType DateType NumberType RefType
                  (def_of (_fieldDefs this) k)) as [[accepts expected]|];
        [|apply IH].
      destruct (accepts (get k (object w))); simpl; [apply IH|].
      unfold this_modelName.
      destruct (_model this); simpl; eauto.
Qed.

(** X7.  With [cleanRefs] unset, [build] on a [plain] source returns a
    result exactly when every declared field that the source owns with
    a defined value is accepted by the validator of its definition (or
    has a definition that calls none); the source is then unchanged and
    nothing is logged. *)
Theorem build_returns_iff_accepted w :
  plain (object w) = true ->
  ((exists retObject, build false w = (Return retObject, w))
   <-> forallb (passes_ (object w)) (for_in (_fieldDefs this)) = true).
Proof.
  intros _. rewrite build_eq.
  pose proof (build_fields_uncleaned (for_in (_fieldDefs this)) [] w) as H.
  destruct (forallb (passes_ (object w)) (for_in (_fieldDefs this))).
  - destruct H as [ret H]. rewrite H. split; [reflexivity|].
    intros _. now eexists.
  - destruct H as (e & w' & H). rewrite H.
    split; [intros [ret Hret]; discriminate | discriminate].
Qed.

End BuildOutcome.

(** ** More on relationship and virtual-field resolution *)

Lemma set_set {A} k (v v' : A) o : set k v' (set k v o) = set k v' o.
Proof.
  induction o as [|[k' u] o IH]; simpl.
  - now rewrite String.eqb_refl.
  - destruct (k' =? k) eqn:E; simpl.
    + now rewrite String.eqb_refl.
    + now rewrite E, IH.
Qed.

Lemma filter_all {A} (f : A -> bool) l :
  (forall x, In x l -> f x = true) -> filter f l = l.
Proof.
  induction l as [|x l IH]; simpl; [reflexivity|]. intros H.
  rewrite (H x) by now left. rewrite IH; [reflexivity|].
  intros y Hy. apply H. now right.
Qed.

Section Resolving.
Variable this : Schema.

Lemma call_findById_requests model id w r w' :
  call_findById model id true w = (r, w') ->
  exists more, requests w' = (requests w ++ more)%list
               /\ forallb nested_fetch more = true.
Proof.
  unfold call_findById. destruct model as [m|].
  - unfold bind, issue, lift. intros [= <- <-]. simpl.
    now exists [FindById (_modelName m) id true].
  - unfold throw. intros [= <- <-]. exists []. now rewrite app_nil_r.
Qed.

Lemma asyncForEach_requests model ids : forall acc w r w',
  asyncForEach ids (fetch_into model) acc w = (r, w') ->
  exists more, requests w' = (requests w ++ more)%list
               /\ forallb nested_fetch more = true.
Proof.
  induction ids as [|x ids IH]; intros acc w r w'; simpl.
  - intros [= <- <-]. exists []. now rewrite app_nil_r.
  - unfold bind at 1. unfold fetch_into at 1.
    destruct (negb (is_undefined x)).
    + unfold bind at 1.
      destruct (call_findById model x true w) as [[res|e] w1] eqn:Hc;
        apply call_findById_requests in Hc; destruct Hc as (m1 & H1 & F1).
      * unfold ret at 1. intros H. apply IH in H.
        destruct H as (m2 & H2 & F2). exists (m1 ++ m2)%list.
        rewrite H2, H1, <- app_assoc, forallb_app, F1, F2. auto.
      * intros [= <- <-]. now exists m1.
    + unfold ret at 1. apply IH.
Qed.

(** What a round of [_doPopulates] may change. *)
Lemma populate_one_effect p w r w' :
  populate_one this p w = (r, w') ->
  console w' = console w
  /\ (forall e, r = Throw e -> object w' = object w)
  /\ exists more, requests w' = (requests w ++ more)%list
                  /\ forallb nested_fetch more = true.
Proof.
  rewrite populate_one_eq. intros H.
  assert (Hnone : forall e : error,
            (Throw (A := unit) e, w) = (r, w') ->
            console w' = console w
            /\ (forall e, r = Throw e -> object w' = object w)
            /\ exists more, requests w' = (requests w ++ more)%list
                            /\ forallb nested_fetch more = true).
  { intros e [= <- <-]. repeat split; auto. exists [].
    now rewrite app_nil_r. }
  destruct (_models this) as [models|]; [|now apply (Hnone _ H)].
  destruct (_model this) as [owner|]; [|now apply (Hnone _ H)].
  cbv zeta in H.
  destruct (instanceof_Array _).
  - destruct (truthy (get (Populate.path p) (object w))
              && greater_than_zero
                   (length_of (get (Populate.path p) (object w)))).
    + destruct (asyncForEach _ _ _ w) as [[res|e] w1] eqn:Ha;
        pose proof (asyncForEach_world _ _ _ _ _ _ Ha) as [Ho Hc];
        apply asyncForEach_requests in Ha; destruct Ha as (more & Hq & F);
        injection H as <- <-; simpl; repeat split; auto; try discriminate;
        now exists more.
    + unfold ret in H. injection H as <- <-. simpl.
      repeat split; auto; try discriminate. exists [].
      now rewrite app_nil_r.
  - destruct (defined (get (Populate.path p) (object w))).
    + destruct (call_findById _ _ _ w) as [[res|e] w1] eqn:Hc;
        pose proof (call_findById_world _ _ _ _ _ _ Hc) as [Ho Hcon];
        apply call_findById_requests in Hc; destruct Hc as (more & Hq & F);
        injection H as <- <-; simpl; repeat split; auto; try discriminate;
        now exists more.
    + injection H as <- <-. repeat split; auto; try discriminate.
      exists []. now rewrite app_nil_r.
Qed.

(** X9.  A round of [_doPopulates] that throws (unresolved target,
    rejected fetch, missing model or registry) leaves the document as
    it was: the field is replaced only once every fetch of the round
    has returned. *)
Theorem populate_round_all_or_nothing p w e w' :
  populate_one this p w = (Throw e, w') ->
  object w' = object w /\ console w' = console w.
Proof.
  intros H. apply populate_one_effect in H.
  destruct H as (Hc & Ho & _). split; [now apply (Ho e) | exact Hc].
Qed.

Lemma populate_each_effect ps : forall w r w',
  populate_each this ps w = (r, w') ->
  console w' = console w
  /\ exists more, requests w' = (requests w ++ more)%list
                  /\ forallb nested_fetch more = true.
Proof.
  induction ps as [|p ps IH]; intros w r w'; simpl.
  - intros [= <- <-]. split; [reflexivity|]. exists [].
    now rewrite app_nil_r.
  - unfold bind at 1.
    destruct (populate_one this p w) as [[[]|e] w1] eqn:Hp;
      apply populate_one_effect in Hp;
      destruct Hp as (Hc & _ & m1 & H1 & F1).
    + intros H. apply IH in H. destruct H as (Hc2 & m2 & H2 & F2).
      split; [congruence|]. exists (m1 ++ m2)%list.
      rewrite H2, H1, <- app_assoc, forallb_app, F1, F2. auto.
    + intros [= <- <-]. split; [exact Hc|]. now exists m1.
Qed.

(** X10.  Whatever its outcome, [_doPopulates] writes to the registered
    paths only, logs nothing, keeps the requests issued before it and
    adds only fetches by identity that ask for nested resolution. *)
Theorem doPopulates_frame w r w' :
  _doPopulates this w = (r, w') ->
  (forall x, ~ In x (map Populate.path (_populates this)) ->
             lookup x (object w') = lookup x (object w))
  /\ console w' = console w
  /\ exists more, requests w' = (requests w ++ more)%list
                  /\ forallb nested_fetch more = true.
Proof.
  unfold _doPopulates. unfold bind at 1.
  destruct (populate_each this (_populates this) w) as [[[]|e] w1] eqn:Hp;
    unfold read_object; intros [= <- <-];
    pose proof (populate_each_effect _ _ _ _ Hp) as (Hc & Hq);
    (split; [|split; assumption]);
    intros x Hx; now apply (populate_each_other this _ _ _ _ _ Hp).
Qed.

Lemma virtual_one_effect v w r w' :
  virtual_one this v w = (r, w') ->
  console w' = console w
  /\ (forall x, x <> Virtual.fieldName v ->
                lookup x (object w') = lookup x (object w))
  /\ (forall e, r = Throw e -> object w' = object w)
  /\ (r = Return tt ->
      exists q, requests w' = (requests w ++ [q])%list
                /\ nested_query q = true).
Proof.
  unfold virtual_one, this_models.
  unfold bind at 1. unfold lift at 1.
  destruct (_models this) as [models|];
    [|intros [= <- <-]; repeat split; auto; discriminate].
  unfold bind at 1. unfold read_object at 1. cbv beta iota.
  unfold bind at 1. unfold call_find.
  destruct (find_model models (VirtualDef.ref (Virtual.virtualDef v)))
    as [m|]; [|unfold throw; intros [= <- <-]; repeat split; auto;
               discriminate].
  unfold bind at 1. unfold issue at 1. unfold lift at 1. cbv beta iota.
  destruct (find m _ _ _ _) as [res|e]; unfold assign;
    intros [= <- <-]; simpl; repeat split; auto; try discriminate.
  - intros x Hx. now apply lookup_set_other.
  - intros _. eexists. split; [reflexivity|]. apply String.eqb_refl.
Qed.

(** X11.  When [_doVirtuals] returns it has logged nothing, written to
    the registered field names only, and issued exactly one query per
    registered descriptor, each an equality query that asks for nested
    resolution. *)
Theorem doVirtuals_one_query_each w o w' :
  _doVirtuals this w = (Return o, w') ->
  o = object w'
  /\ console w' = console w
  /\ (forall x, ~ In x (map Virtual.fieldName (_virtuals this)) ->
                lookup x (object w') = lookup x (object w))
  /\ exists more, requests w' = (requests w ++ more)%list
                  /\ length more = length (_virtuals this)
                  /\ forallb nested_query more = true.
Proof.
  unfold _doVirtuals. unfold bind at 1.
  destruct (virtual_each this (_virtuals this) w) as [[[]|e] w1] eqn:Hv;
    unfold read_object; [|discriminate].
  intros [= <- <-]. split; [reflexivity|].
  revert w Hv. induction (_virtuals this) as [|v vs IH]; intros w; simpl.
  - intros [= <-]. repeat split; auto. exists []. now rewrite app_nil_r.
  - unfold bind at 1.
    destruct (virtual_one this v w) as [[[]|e] w2] eqn:H1; [|discriminate].
    apply virtual_one_effect in H1.
    destruct H1 as (Hc1 & Hl1 & _ & Hq1).
    destruct (Hq1 eq_refl) as (q & Hq & Fq).
    intros H. apply IH in H. destruct H as (Hc & Hl & more & Hm & Hlen & F).
    split; [congruence|]. split.
    + intros x Hx.
      assert (Hv1 : x <> Virtual.fieldName v)
        by (intros ->; apply Hx; now left).
      assert (Hvs : ~ In x (map Virtual.fieldName vs))
        by (intros Hin; apply Hx; now right).
      rewrite (Hl x Hvs). now apply Hl1.
    + exists (q :: more). rewrite Hm, Hq, <- app_assoc. simpl.
      rewrite Hlen, Fq, F. auto.
Qed.

End Resolving.

(** ** Populating and collapsing *)

Section RoundTrip.
Variable this : Schema.

Lemma populate_one_array models owner target p w ids doc :
  _models this = Some models ->
  _model this = Some owner ->
  find_model models (Populate.model p) = Some target ->
  instanceof_Array
    (def_of (_modelSchema_fieldDefs owner) (Populate.path p)) = true ->
  get (Populate.path p) (object w) = VArr ids ->
  (forall id, In id ids -> id <> VUndefined ->
              findById target id true = Return (doc id)) ->
  populate_one this p w
  = (Return tt,
     put (Populate.path p) (VArr (map doc (filter defined ids)))
       (asked (map (fun id => FindById (_modelName target) id true)
                 (filter defined ids)) w)).
Proof.
  intros Hms Hm Hfind Harr Hv Hdoc.
  rewrite populate_one_eq, Hms, Hm, Hfind. cbv zeta. rewrite Harr, Hv.
  destruct ids as [|id ids'].
  - simpl. unfold ret, put, asked. simpl. now rewrite app_nil_r.
  - assert (Hlen : truthy (VArr (id :: ids'))
                   && greater_than_zero (length_of (VArr (id :: ids')))
                   = true).
    { simpl truthy. simpl length_of. unfold greater_than_zero.
      simpl andb. apply Z.ltb_lt. lia. }
    rewrite Hlen. unfold indexed.
    rewrite (fetch_all target doc) by assumption. reflexivity.
Qed.


(** X12.  Collapsing undoes populating on an array of references: when
    the field holds defined identities and the target model returns,
    for each of them, a document whose [_id] is that identity, the
    round of the descriptor stores the documents in order and reference
    collapsing then gives back the document the round started from. *)
Theorem populate_then_collapse_array models owner target p w ids doc :
  _models this = Some models ->
  _model this = Some owner ->
  find_model models (Populate.model p) = Some target ->
  instanceof_Array
    (def_of (_modelSchema_fieldDefs owner) (Populate.path p)) = true ->
  instanceof_Array (def_of (_fieldDefs this) (Populate.path p)) = true ->
  is_ref (first (def_of (_fieldDefs this) (Populate.path p))) = true ->
  lookup (Populate.path p) (object w) = Some (VArr ids) ->
  (forall id, In id ids ->
     id <> VUndefined
     /\ findById target id true = Return (doc id)
     /\ identity_of (doc id) = id) ->
  exists w1 w2,
    populate_one this p w = (Return tt, w1)
    /\ get (Populate.path p) (object w1) = VArr (map doc ids)
    /\ _depopulate this (Populate.path p) w1 = (Return tt, w2)
    /\ object w2 = object w.
Proof.
  intros Hms Hm Hfind Howner Harr Href Hl Hids.
  assert (Hv : get (Populate.path p) (object w) = VArr ids)
    by (unfold get; now rewrite Hl).
  assert (Hall : filter defined ids = ids).
  { apply filter_all. intros id Hin. destruct (Hids id Hin) as (Hd & _).
    unfold defined. now destruct id. }
  eexists. eexists. split.
  - apply (populate_one_array models owner target p w ids doc);
      try assumption. intros id Hin _. now apply Hids.
  - rewrite Hall.
    assert (Hv1 : get (Populate.path p)
                    (object (put (Populate.path p) (VArr (map doc ids))
                       (asked (map (fun id => FindById (_modelName target)
                                                id true) ids) w)))
                  = VArr (map doc ids)).
    { unfold get. simpl. now rewrite lookup_set_same. }
    split; [exact Hv1|].
    assert (Hnull : ~ In VNull (map doc ids)).
    { intros Hin. apply in_map_iff in Hin. destruct Hin as (id & E & Hin).
      destruct (Hids id Hin) as (Hd & _ & Hid).
      rewrite E in Hid. apply Hd. now rewrite <- Hid. }
    split.
    + apply (collapse_array this _ _ _ Harr Href Hv1 Hnull).
    + simpl. rewrite set_set, map_map.
      assert (Hback : map (fun id => identity_of (doc id)) ids = ids).
      { rewrite <- (map_id ids) at 2. apply map_ext_in.
        intros id Hin. now apply Hids. }
      rewrite Hback. now apply set_same.
Qed.


End RoundTrip.

(** ** More on registration and the hook chain *)

Lemma filter_swap {A} (f g : A -> bool) l :
  filter f (filter g l) = filter g (filter f l).
Proof.
  induction l as [|x l IH]; simpl; [reflexivity|].
  destruct (f x) eqn:Ef; destruct (g x) eqn:Eg; simpl;
    rewrite ?Ef, ?Eg, IH; reflexivity.
Qed.

Lemma filter_twice {A} (f : A -> bool) l : filter f (filter f l) = filter f l.
Proof.
  induction l as [|x l IH]; simpl; [reflexivity|].
  destruct (f x) eqn:Ef; simpl; rewrite ?Ef, IH; reflexivity.
Qed.

Section Order.
Context {A : Type}.
Variable key : A -> string.

Lemma keep_first_filter k l :
  keep_first key (filter (fun p => negb (key p =? k)) l)
  = filter (fun p => negb (key p =? k)) (keep_first key l).
Proof.
  induction l as [|x l IH]; simpl; [reflexivity|].
  destruct (String.eqb_spec (key x) k) as [E|Hne]; simpl.
  - rewrite IH, <- E. now rewrite filter_twice.
  - rewrite IH. f_equal. apply filter_swap.
Qed.

(** Registering the entries of a list, one after the other. *)
Lemma fold_push es : forall registry,
  fold_left (fun r e => push_unless_found key e r) es registry
  = (registry
     ++ keep_first key
          (filter (fun e => negb (existsb (fun p => key p =? key e) registry))
             es))%list.
Proof.
  induction es as [|e es IH]; intros registry; simpl.
  - now rewrite app_nil_r.
  - rewrite IH. unfold push_unless_found.
    destruct (List.find (fun p => key p =? key e) registry) as [found|]
      eqn:Hf.
    + assert (Hex : existsb (fun p => key p =? key e) registry = true).
      { apply existsb_exists. apply find_some in Hf. now exists found. }
      now rewrite Hex.
    + assert (Hex : existsb (fun p => key p =? key e) registry = false).
      { apply not_true_is_false. intros H. apply existsb_exists in H.
        destruct H as (x & Hx & E). apply String.eqb_eq in E.
        apply find_none in Hf. apply Hf. rewrite <- E. now apply in_map. }
      rewrite Hex. simpl. rewrite <- app_assoc. simpl. do 2 f_equal.
      rewrite <- keep_first_filter. f_equal.
      clear IH Hf Hex. induction es as [|x l IHl]; simpl; [reflexivity|].
      rewrite existsb_app. simpl. rewrite orb_false_r.
      rewrite (String.eqb_sym (key e) (key x)).
      destruct (existsb (fun p => key p =? key x) registry); simpl;
        [exact IHl|].
      destruct (key x =? key e); simpl; [exact IHl | now rewrite IHl].
Qed.

Lemma registered_after_push entry registry :
  NoDup (map key registry) ->
  registered key (key entry) (push_unless_found key entry registry)
  = [first_of key entry registry].
Proof.
  intros Hnd. unfold first_of.
  destruct (List.find (fun p => key p =? key entry) registry)
    as [found|] eqn:Hf.
  - rewrite (push_found _ _ _ _ Hf). now apply registered_found.
  - rewrite (push_fresh _ _ _ Hf), registered_app.
    apply find_none in Hf. rewrite (registered_none _ _ _ Hf).
    simpl. now rewrite String.eqb_refl.
Qed.
End Order.

(** X14.  The field definitions a schema is constructed with are the
    ones it has after any sequence of calls: no setter and no
    registration changes them. *)
Theorem fieldDefs_fixed defs cs :
  _fieldDefs (performs cs (new_Schema defs)) = defs.
Proof.
  change defs with (_fieldDefs (new_Schema defs)) at 2.
  generalize (new_Schema defs). unfold performs.
  induction cs as [|c cs IH]; intros s; simpl; [reflexivity|].
  rewrite IH. now destruct c.
Qed.

Lemma fold_registry {E} (registry : Schema -> list E)
    (register : E -> Schema -> Schema) (key : E -> string) :
  (forall e s,
     registry (register e s) = push_unless_found key e (registry s)) ->
  forall es s,
    registry (fold_left (fun s e => register e s) es s)
    = fold_left (fun r e => push_unless_found key e r) es (registry s).
Proof.
  intros Hstep es. induction es as [|e es IH]; intros s; simpl;
    [reflexivity|]. now rewrite IH, Hstep.
Qed.

Lemma fold_registry_new {E} (registry : Schema -> list E)
    (register : E -> Schema -> Schema) (key : E -> string) defs :
  (forall e s,
     registry (register e s) = push_unless_found key e (registry s)) ->
  registry (new_Schema defs) = [] ->
  forall es,
    registry (fold_left (fun s e => register e s) es (new_Schema defs))
    = keep_first key es.
Proof.
  intros Hstep Hnew es.
  rewrite (fold_registry registry register key Hstep), fold_push, Hnew.
  simpl. now rewrite filter_all.
Qed.

(** X15.  Registering a list of entries on a fresh schema, one after
    the other, leaves in each registry the entries of the list in their
    order, without those whose key was registered before. *)
Theorem registration_order defs :
  (forall ds,
     _populates (fold_left (fun s d => populate d s) ds (new_Schema defs))
     = keep_first Populate.path ds)
  /\ (forall es,
        _preOps (fold_left (fun s e => pre (PreOp.operation e) (PreOp.cb e) s)
                   es (new_Schema defs))
        = keep_first PreOp.operation es)
  /\ (forall es,
        _virtuals
          (fold_left (fun s e => virtual (Virtual.fieldName e)
                                   (Virtual.virtualDef e) s)
             es (new_Schema defs))
        = keep_first Virtual.fieldName es)
  /\ (forall es,
        _uploads
          (fold_left (fun s e => upload (Upload.storagePath e)
                                   (Upload.path e) s)
             es (new_Schema defs))
        = keep_first Upload.path es).
Proof.
  repeat apply conj; intros es.
  - now apply (fold_registry_new _populates populate Populate.path).
  - apply (fold_registry_new _preOps
             (fun e => pre (PreOp.operation e) (PreOp.cb e))
             PreOp.operation); [|reflexivity].
    now intros [operation cb] s.
  - apply (fold_registry_new _virtuals
             (fun e => virtual (Virtual.fieldName e) (Virtual.virtualDef e))
             Virtual.fieldName); [|reflexivity].
    now intros [fieldName virtualDef] s.
  - apply (fold_registry_new _uploads
             (fun e => upload (Upload.storagePath e) (Upload.path e))
             Upload.path); [|reflexivity].
    now intros [storagePath path] s.
Qed.

Section HookFacts.
Variable state : Type.
Variable invoke : callback -> Schema -> state -> outcome unit * state.

Lemma hooks_each_registered this preOps operation : forall st,
  hooks_each state invoke this preOps operation st
  = call_all state invoke this
      (map PreOp.cb (registered PreOp.operation operation preOps)) st.
Proof.
  induction preOps as [|preOp preOps IH]; intros st; simpl; [reflexivity|].
  destruct (PreOp.operation preOp =? operation); simpl; [|apply IH].
  destruct (invoke (PreOp.cb preOp) this st) as [[[]|e] st'];
    [apply IH | reflexivity].
Qed.

(** X16.  [_hooks] calls the callbacks registered under the operation,
    in registration order and up to the first that throws, whose error
    it lets through; callbacks registered under other operations are
    not called. *)
Theorem hooks_call_registered this operation st :
  _hooks state invoke this operation st
  = call_all state invoke this
      (map PreOp.cb (registered PreOp.operation operation (_preOps this)))
      st.
Proof.
  unfold _hooks. revert st.
  induction (_preOps this) as [|preOp preOps IH]; intros st; simpl;
    [reflexivity|].
  destruct (PreOp.operation preOp =? operation); simpl; [|apply IH].
  destruct (invoke (PreOp.cb preOp) this st) as [[[]|e] st'];
    [apply IH | reflexivity].
Qed.

(** X17.  On a schema built by the constructor and calls, [_hooks]
    does nothing for an operation that was never registered, and once
    a callback has been registered for an operation, running the chain
    for it is one call: of the callback registered first. *)
Theorem hooks_first_registrant s :
  reachable s ->
  (forall operation st,
     ~ In operation (map PreOp.operation (_preOps s)) ->
     _hooks state invoke s operation st = (Return tt, st))
  /\ (forall operation cb st,
        let first := {| PreOp.operation := operation; PreOp.cb := cb |} in
        _hooks state invoke (pre operation cb s) operation st
        = invoke (PreOp.cb (first_of PreOp.operation first (_preOps s)))
            (pre operation cb s) st).
Proof.
  intros Hs. destruct (reachable_unique_keys s Hs) as (_ & Ho & _).
  split.
  - intros operation st Hnew. unfold _hooks.
    rewrite hooks_each_registered.
    now rewrite (registered_none _ _ _ Hnew).
  - intros operation cb st first. unfold _hooks.
    rewrite hooks_each_registered. unfold pre at 2. simpl _preOps.
    pose proof (registered_after_push PreOp.operation first _ Ho) as Hreg.
    simpl in Hreg. fold first. rewrite Hreg. simpl.
    destruct (invoke _ (pre operation cb s) st) as [[[]|e] st'];
      reflexivity.
Qed.

End HookFacts.

(** ** Build after populate *)

Section StoredIdentities.
Variables StringType BooleanType DateType NumberType RefType : FieldType.
Variable this : Schema.
Variables removeId includeDeletes : bool.

Local Abbreviation fields :=
  (build_fields StringType BooleanType DateType NumberType RefType this
     includeDeletes true).

(** The collapse of a field that the loop gets through. *)
Lemma build_fields_collapse key ks : NoDup ks -> forall retObject w r w',
  fields ks retObject w = (Return r, w') ->
  In key ks ->
  hasOwnProperty key (object w) = true ->
  is_undefined (get key (object w)) = false ->
  exists w0 w1,
    lookup key (object w0) = lookup key (object w)
    /\ _depopulate this key w0 = (Return tt, w1)
    /\ lookup key (object w') = lookup key (object w1).
Proof.
  induction 1 as [|k ks Hk Hnd IH]; intros retObject w r w' Hf Hin Hown Hdef;
    [easy|].
  simpl in Hf. unfold bind in Hf.
  destruct (build_field StringType BooleanType DateType NumberType RefType
              this includeDeletes true k retObject w)
    as [[r1|e] w1] eqn:Hstep; [|discriminate].
  pose proof (build_fields_world _ _ _ _ _ _ _ _ _ _ _ _ _ Hf) as Hrest.
  destruct (String.eqb_spec k key) as [->|Hne].
  - rewrite build_field_eq, Hown, Hdef in Hstep. simpl in Hstep.
    destruct (_depopulate this key w) as [[[]|e] w2] eqn:Hc.
    + exists w, w2. split; [reflexivity|]. split; [exact Hc|].
      destruct (_validateField StringType BooleanType DateType NumberType
                  RefType this key (get key (object w2)));
        [|destruct (_model this); discriminate].
      injection Hstep as _ <-.
      apply (kept_outside _ _ _ _ _ _ Hrest Hk).
    + destruct (_model this); discriminate.
  - destruct Hin as [E|Hin]; [contradiction|].
    pose proof (build_field_world _ _ _ _ _ _ _ _ _ _ _ _ _ Hstep) as Hw1.
    assert (Hl : lookup key (object w1) = lookup key (object w))
      by (apply (collapsed_at_other _ _ _ _ _ key Hw1); congruence).
    destruct (IH _ _ _ _ Hf Hin) as (w0 & w2 & H0 & Hc & H2).
    + now rewrite (hasOwnProperty_lookup _ _ _ Hl).
    + now rewrite (get_lookup _ _ _ Hl).
    + exists w0, w2. repeat split; congruence.
Qed.

(** X18.  With [cleanRefs] set, what a result holds under a reference
    field is the identity of the value the source held: the [_id] of a
    resolved document, the value itself for a bare identity; under an
    array of references it holds the identities of the elements, in
    order. *)
Theorem build_stores_identities w retObject w' key v :
  _build StringType BooleanType DateType NumberType RefType this
    removeId includeDeletes true w = (Return retObject, w') ->
  lookup key (object w) = Some v ->
  v <> VUndefined ->
  key <> "_id" -> key <> "_c" -> key <> "_u" ->
  (is_ref (def_of (_fieldDefs this) key) = true ->
   lookup key retObject = Some (identity_of v))
  /\ (forall elems,
        instanceof_Array (def_of (_fieldDefs this) key) = true ->
        is_ref (first (def_of (_fieldDefs this) key)) = true ->
        v = VArr elems ->
        lookup key retObject = Some (VArr (map identity_of elems))).
Proof.
  rewrite build_eq.
  destruct (fields (for_in (_fieldDefs this)) [] w) as [[r|e] w1] eqn:Hf;
    [|discriminate].
  intros [= <- <-] Hl Hv Hid Hc Hu.
  assert (Hown : hasOwnProperty key (object w) = true)
    by (unfold hasOwnProperty; now rewrite Hl).
  assert (Hget : get key (object w) = v) by (unfold get; now rewrite Hl).
  assert (Hdef : is_undefined (get key (object w)) = false)
    by (rewrite Hget; now destruct v).
  assert (Hstored : In key (for_in (_fieldDefs this)) ->
            typeof_object (def_of (_fieldDefs this) key) = true ->
            exists w0 w2,
              get key (object w0) = v
              /\ _depopulate this key w0 = (Return tt, w2)
              /\ lookup key (structural removeId (object w1) r)
                 = Some (get key (object w2))).
  { intros Hdecl Hobj.
    destruct (build_fields_collapse key _ (for_in_NoDup _) _ _ _ _ Hf
                Hdecl Hown Hdef) as (w0 & w2 & H0 & Hcol & H2).
    exists w0, w2. split; [now rewrite (get_lookup _ _ _ H0)|].
    split; [exact Hcol|].
    rewrite lookup_structural by (assumption || (intros ->; congruence)).
    rewrite (build_fields_result _ _ _ _ _ _ _ _ _ (for_in_NoDup _)
               _ _ _ _ Hf key).
    unfold built.
    assert (Hin : existsb (String.eqb key) (for_in (_fieldDefs this)) = true).
    { apply existsb_exists. exists key. now rewrite String.eqb_refl. }
    rewrite Hin, Hown, Hdef. simpl. rewrite getValue_table.
    rewrite (get_lookup _ _ _ H2).
    destruct (def_of (_fieldDefs this) key); try discriminate; reflexivity. }
  assert (Hdecl : def_of (_fieldDefs this) key <> DOther ->
                  In key (for_in (_fieldDefs this))).
  { intros Hfd. rewrite for_in_keys, <- lookup_keys. unfold def_of in Hfd.
    destruct (lookup key (_fieldDefs this)) as [fd|]; [now exists fd|].
    congruence. }
  split.
  - intros Hr.
    destruct Hstored as (w0 & w2 & H0 & Hcol & Hres).
    + apply Hdecl. intros E. rewrite E in Hr. discriminate.
    + destruct (def_of (_fieldDefs this) key); try discriminate; reflexivity.
    + rewrite Hres. f_equal.
      rewrite collapse_single in Hcol; [|assumption|].
      * rewrite H0 in Hcol. injection Hcol as <-. unfold get. simpl.
        now rewrite lookup_set_same.
      * intros Hnull.
        rewrite (depopulate_null_reference this key w0 Hr Hnull) in Hcol.
        discriminate.
  - intros elems Ha Hr ->.
    destruct Hstored as (w0 & w2 & H0 & Hcol & Hres).
    + apply Hdecl. intros E. rewrite E in Ha. discriminate.
    + destruct (def_of (_fieldDefs this) key); try discriminate; reflexivity.
    + rewrite Hres. f_equal.
      rewrite (collapse_array this key w0 elems Ha Hr H0) in Hcol.
      * injection Hcol as <-. unfold get. simpl.
        now rewrite lookup_set_same.
      * intros Hnull.
        rewrite (depopulate_null_element this key w0 elems Ha Hr H0 Hnull)
          in Hcol.
        discriminate.
Qed.

End StoredIdentities.

(** ** The further properties at concrete inputs *)

Section FurtherInstances.
Import Sample Cases.

Local Abbreviation run := Sample.build.

Lemma validateField_false_unrecognised_witness :
  def_of (_fieldDefs posts) "absent" = DOther
  /\ _validateField StringType BooleanType DateType NumberType RefType
       posts "absent" (VNum 1) = Return false
  /\ _getValue StringType BooleanType DateType NumberType RefType
       posts "absent" (VNum 1) = VNull.
Proof.
  destruct (validateField_false_unrecognised StringType BooleanType DateType
              NumberType RefType posts "absent" (VNum 1)) as [Hv Hg].
  split; [reflexivity|]. split; [now apply Hv | now apply Hg].
Defined.

Lemma depopulate_collapses_witness :
  _depopulate posts "likes" (start resolved)
  = (Return tt,
     put "likes" (VArr [VStr "u1"; VStr "u2"; VUndefined]) (start resolved))
  /\ _depopulate posts "author" (start resolved)
     = (Return tt, put "author" (VStr "u3") (start resolved)).
Proof.
  destruct (depopulate_collapses posts "likes" (start resolved)) as [Harr _].
  destruct (depopulate_collapses posts "author" (start resolved))
    as [_ Hone].
  split.
  - apply (Harr [VStr "u1"; user "u2"; VUndefined]); try reflexivity.
    simpl. intros [H|[H|[H|[]]]]; discriminate.
  - apply Hone; [reflexivity | discriminate].
Defined.

Lemma depopulate_bare_unchanged_witness :
  _depopulate posts "author" (start liked) = (Return tt, start liked)
  /\ _depopulate posts "likes" (start liked) = (Return tt, start liked).
Proof.
  destruct (depopulate_bare_unchanged posts "author" (start liked))
    as [Hone _].
  destruct (depopulate_bare_unchanged posts "likes" (start liked))
    as [_ Harr].
  split.
  - apply (Hone (VStr "u3")); reflexivity.
  - apply (Harr [VStr "u1"; VStr "u2"]); reflexivity.
Defined.

Lemma depopulate_effect_witness :
  _depopulate posts "author" (start orphan)
  = (Throw (cannot_read "_id" "null"), start orphan)
  /\ (forall e, Throw (A := unit) (cannot_read "_id" "null") = Throw e ->
                start orphan = start orphan)
  /\ console (start orphan) = console (start orphan)
  /\ requests (start orphan) = requests (start orphan)
  /\ (forall x, x <> "author" ->
                lookup x (object (start orphan))
                = lookup x (object (start orphan))).
Proof.
  split; [reflexivity|].
  apply (depopulate_effect posts "author" (start orphan)). reflexivity.
Defined.

Lemma build_warns_what_it_throws_witness :
  exists e w',
    _model posts = Some Post
    /\ run posts broken false false true = (Throw e, w')
    /\ (exists inner, e = Error (processing_text (_modelName Post) inner))
    /\ console w' = (console (start broken) ++ [message e])%list.
Proof.
  eexists. eexists. split; [reflexivity|].
  split; [vm_compute; reflexivity|].
  exact (build_warns_what_it_throws StringType BooleanType DateType
           NumberType RefType posts false false true Post (start broken)
           _ _ eq_refl eq_refl eq_refl).
Defined.

Lemma build_without_model_witness :
  exists e w',
    _model (new_Schema post_defs) = None
    /\ run (new_Schema post_defs) twice_invalid false false false
       = (Throw e, w')
    /\ e = cannot_read "_modelName" "null"
    /\ console w' = console (start twice_invalid).
Proof.
  eexists. eexists. split; [reflexivity|].
  split; [vm_compute; reflexivity|].
  exact (build_without_model StringType BooleanType DateType NumberType
           RefType (new_Schema post_defs) false false false
           (start twice_invalid) _ _ eq_refl eq_refl eq_refl).
Defined.

Lemma populate_round_all_or_nothing_witness :
  populate_one haunted ghost_author (start stored)
  = (Throw (cannot_read "findById" "undefined"), start stored)
  /\ object (start stored) = object (start stored)
  /\ console (start stored) = console (start stored).
Proof.
  split; [reflexivity|].
  apply (populate_round_all_or_nothing haunted ghost_author (start stored)
           (cannot_read "findById" "undefined")).
  reflexivity.
Defined.

Lemma doPopulates_frame_witness :
  exists r w',
    _doPopulates populated (start stored) = (r, w')
    /\ (forall x, ~ In x (map Populate.path (_populates populated)) ->
                  lookup x (object w') = lookup x (object (start stored)))
    /\ console w' = console (start stored)
    /\ exists more, requests w' = (requests (start stored) ++ more)%list
                    /\ forallb nested_fetch more = true.
Proof.
  eexists. eexists. split; [vm_compute; reflexivity|].
  exact (doPopulates_frame populated (start stored) _ _ eq_refl).
Defined.

Lemma doVirtuals_one_query_each_witness :
  exists o w',
    _doVirtuals watched (start liked) = (Return o, w')
    /\ o = object w'
    /\ console w' = console (start liked)
    /\ (forall x, ~ In x (map Virtual.fieldName (_virtuals watched)) ->
                  lookup x (object w') = lookup x (object (start liked)))
    /\ exists more, requests w' = (requests (start liked) ++ more)%list
                    /\ length more = length (_virtuals watched)
                    /\ forallb nested_query more = true.
Proof.
  eexists. eexists. split; [vm_compute; reflexivity|].
  exact (doVirtuals_one_query_each watched (start liked) _ _ eq_refl).
Defined.

Lemma populate_then_collapse_array_witness :
  exists w1 w2,
    populate_one populated likes (start liked) = (Return tt, w1)
    /\ get "likes" (object w1) = VArr [user "u1"; user "u2"]
    /\ _depopulate populated "likes" w1 = (Return tt, w2)
    /\ object w2 = liked.
Proof.
  apply (populate_then_collapse_array populated [User; Post] Post User
           likes (start liked) [VStr "u1"; VStr "u2"] document);
    try reflexivity.
  intros id [<-|[<-|[]]]; repeat split; discriminate.
Defined.


Lemma hooks_first_registrant_witness :
  reachable posts
  /\ _hooks (list nat) logging posts "save" [] = (Return tt, [])
  /\ _hooks (list nat) logging hooked "save" [] = (Return tt, [1%nat])
  /\ _hooks (list nat) logging (pre "save" 0 posts) "save" []
     = (Throw (Error "hook failed"), []).
Proof.
  assert (Hr : reachable posts)
    by exact (reachable_call (Call_setModel Post) _
                (reachable_new post_defs)).
  split; [exact Hr|].
  destruct (hooks_first_registrant (list nat) logging posts Hr)
    as [Hnone _].
  split; [apply Hnone; simpl; tauto|].
  assert (Hr' : reachable (pre "delete" 2 (pre "save" 1 posts))).
  { apply (reachable_call (Call_pre "delete" 2)).
    apply (reachable_call (Call_pre "save" 1)). exact Hr. }
  destruct (hooks_first_registrant (list nat) logging _ Hr') as [_ Hfirst].
  split.
  - change hooked
      with (pre "delete" 4 (pre "save" 3 (pre "delete" 2
                                            (pre "save" 1 posts)))).
    change (pre "delete" 4 (pre "save" 3 (pre "delete" 2
                                            (pre "save" 1 posts))))
      with (pre "save" 3 (pre "delete" 2 (pre "save" 1 posts))).
    exact (Hfirst "save" 3%nat []).
  - destruct (hooks_first_registrant (list nat) logging posts Hr)
      as [_ Hposts].
    exact (Hposts "save" 0%nat []).
Defined.

Lemma build_stores_identities_witness :
  exists retObject w',
    run posts draft false true true = (Return retObject, w')
    /\ lookup "author" retObject = Some (VStr "u1")
    /\ lookup "likes" retObject = Some (VArr [VStr "u1"; VStr "u2"]).
Proof.
  eexists. eexists. split; [vm_compute; reflexivity|].
  split.
  - refine (proj1 (build_stores_identities StringType BooleanType DateType
                     NumberType RefType posts false true (start draft) _ _
                     "author"
                     (VObj [("_id", VStr "u1"); ("name", VStr "user u1")])
                     eq_refl eq_refl _ _ _ _) eq_refl); discriminate.
  - refine (proj2 (build_stores_identities StringType BooleanType DateType
                     NumberType RefType posts false true (start draft) _ _
                     "likes" (VArr [VStr "u1"; VObj [("_id", VStr "u2")]])
                     eq_refl eq_refl _ _ _ _)
              [VStr "u1"; VObj [("_id", VStr "u2")]]
              eq_refl eq_refl eq_refl); discriminate.
Defined.

End FurtherInstances.

(** ** The source after a build *)

Lemma own_lookup k (o : obj) :
  hasOwnProperty k o = true -> lookup k o = Some (get k o).
Proof.
  unfold hasOwnProperty, get. now destruct (lookup k o).
Qed.

Lemma depopulate_elems_returns elems : forall acc r,
  depopulate_elems elems acc = Return r ->
  r = (acc ++ map identity_of elems)%list.
Proof.
  induction elems as [|v rest IH]; intros acc r; simpl.
  - intros [= <-]. now rewrite app_nil_r.
  - destruct v; simpl; try discriminate; intros H; apply IH in H;
      now rewrite <- app_assoc in H.
Qed.

Lemma collapsed_value_other fd v :
  collapses fd = false -> collapsed_value fd v = v.
Proof.
  unfold collapses, collapsed_value. intros H.
  apply orb_false_iff in H. now destruct H as [-> ->].
Qed.

Section SourceAfter.
Variables StringType BooleanType DateType NumberType RefType : FieldType.
Variable this : Schema.
Variables removeId includeDeletes cleanRefs : bool.

Local Abbreviation field :=
  (build_field StringType BooleanType DateType NumberType RefType this
     includeDeletes cleanRefs).
Local Abbreviation fields :=
  (build_fields StringType BooleanType DateType NumberType RefType this
     includeDeletes cleanRefs).
Local Abbreviation build :=
  (_build StringType BooleanType DateType NumberType RefType this
     removeId includeDeletes cleanRefs).
Local Abbreviation after := (source_after this cleanRefs).
Local Abbreviation collapsed_ key o :=
  (collapsed_value (def_of (_fieldDefs this) key) (get key o)).

Lemma depopulate_returns key w w1 :
  _depopulate this key w = (Return tt, w1) ->
  hasOwnProperty key (object w) = true ->
  w1 = put key (collapsed_ key (object w)) w.
Proof.
  intros H Hown. apply own_lookup in Hown.
  unfold collapsed_value.
  destruct (instanceof_Array (def_of (_fieldDefs this) key)
            && is_ref (first (def_of (_fieldDefs this) key))) eqn:Harr.
  - unfold _depopulate in H. rewrite Harr in H.
    assert (Hr : is_ref (def_of (_fieldDefs this) key) = false).
    { destruct (def_of (_fieldDefs this) key); try discriminate.
      reflexivity. }
    rewrite Hr in H. unfold bind, read_object, lift, assign, ret in H.
    simpl in H.
    destruct (iterate (get key (object w))) as [elems|e]; [|discriminate].
    destruct (depopulate_elems elems []) as [ds|e] eqn:Hd; [|discriminate].
    apply depopulate_elems_returns in Hd. subst ds.
    now injection H as <-.
  - destruct (is_ref (def_of (_fieldDefs this) key)) eqn:Hr.
    + unfold _depopulate in H. rewrite Harr, Hr in H.
      unfold bind, read_object, lift, assign, ret in H. simpl in H.
      unfold identity_of.
      destruct (get key (object w)); simpl in H; try discriminate;
        now injection H as <-.
    + rewrite depopulate_untouched in H
        by (unfold collapses; now rewrite Harr, Hr).
      injection H as <-. symmetry. now apply put_same.
Qed.

(** The source after one round that returns. *)
Lemma build_field_source_return key retObject w r w1 :
  field key retObject w = (Return r, w1) ->
  object w1 =
  if cleanRefs && hasOwnProperty key (object w)
     && negb (is_undefined (get key (object w)))
  then set key (collapsed_ key (object w)) (object w)
  else object w.
Proof.
  rewrite build_field_eq.
  destruct (hasOwnProperty key (object w)) eqn:Hown; simpl;
    [|rewrite andb_false_r; now intros [= _ <-]].
  destruct (is_undefined (get key (object w))) eqn:Hdef; simpl.
  - rewrite andb_false_r. destruct includeDeletes; now intros [= _ <-].
  - rewrite !andb_true_r.
    destruct cleanRefs.
    + destruct (_depopulate this key w) as [[[]|e] w2] eqn:Hc.
      * apply depopulate_returns in Hc; [|assumption]. subst w2.
        destruct (_validateField _ _ _ _ _ _ _ _);
          [now intros [= _ <-] | destruct (_model this); discriminate].
      * destruct (_model this); discriminate.
    + unfold ret.
      destruct (_validateField _ _ _ _ _ _ _ _);
        [now intros [= _ <-] | destruct (_model this); discriminate].
Qed.

(** The source after a round that throws: the field is owned and
    defined, and it is either as it was or collapsed. *)
Lemma build_field_source_throw key retObject w e w1 :
  field key retObject w = (Throw e, w1) ->
  hasOwnProperty key (object w) = true
  /\ is_undefined (get key (object w)) = false
  /\ (object w1 = object w
      \/ (cleanRefs = true
          /\ object w1 = set key (collapsed_ key (object w)) (object w))).
Proof.
  rewrite build_field_eq.
  destruct (hasOwnProperty key (object w)) eqn:Hown; simpl;
    [|discriminate].
  destruct (is_undefined (get key (object w))) eqn:Hdef; simpl.
  - destruct includeDeletes; discriminate.
  - intros H. split; [reflexivity|]. split; [reflexivity|].
    destruct cleanRefs.
    + destruct (_depopulate this key w) as [[[]|e0] w2] eqn:Hc.
      * apply depopulate_returns in Hc; [|assumption]. subst w2.
        right. split; [reflexivity|].
        destruct (_validateField _ _ _ _ _ _ _ _); [discriminate|].
        destruct (_model this); now injection H as _ <-.
      * left.
        destruct (depopulate_outcome this key w) as [[e1 H1]|[H1|[_ [v H1]]]];
          rewrite H1 in Hc; try discriminate. injection Hc as _ <-.
        destruct (_model this); now injection H as _ <-.
    + left. unfold ret in H.
      destruct (_validateField _ _ _ _ _ _ _ _); [discriminate|].
      destruct (_model this); now injection H as _ <-.
Qed.

Lemma after_lookup ks o o' x :
  lookup x o' = lookup x o -> after ks o' x = after ks o x.
Proof.
  intros H. unfold source_after.
  now rewrite (hasOwnProperty_lookup _ _ _ H), (get_lookup _ _ _ H), H.
Qed.

Lemma after_outside ks o x :
  ~ In x ks -> after ks o x = lookup x o.
Proof.
  intros H. unfold source_after.
  assert (E : existsb (String.eqb x) ks = false).
  { apply not_true_is_false. intros Hex. apply existsb_exists in Hex.
    destruct Hex as (y & Hy & Exy). apply String.eqb_eq in Exy. now subst. }
  now rewrite E, andb_false_r.
Qed.

Lemma after_cons_other k ks o x :
  x <> k -> after (k :: ks) o x = after ks o x.
Proof.
  intros H. unfold source_after. simpl.
  apply String.eqb_neq in H. now rewrite H.
Qed.

Lemma after_cons_same k ks o :
  after (k :: ks) o k
  = if cleanRefs && hasOwnProperty k o && negb (is_undefined (get k o))
    then Some (collapsed_ k o) else lookup k o.
Proof.
  unfold source_after. simpl. rewrite String.eqb_refl. simpl.
  now rewrite andb_true_r.
Qed.

Lemma lookup_after_round key w w1 :
  object w1 =
    (if cleanRefs && hasOwnProperty key (object w)
        && negb (is_undefined (get key (object w)))
     then set key (collapsed_ key (object w)) (object w)
     else object w) ->
  forall ks, lookup key (object w1) = after (key :: ks) (object w) key.
Proof.
  intros H ks. rewrite after_cons_same, H.
  destruct (cleanRefs && hasOwnProperty key (object w)
            && negb (is_undefined (get key (object w))));
    [apply lookup_set_same | reflexivity].
Qed.

(** The source after a loop that returns. *)
Lemma build_fields_source_return ks : NoDup ks -> forall retObject w r w',
  fields ks retObject w = (Return r, w') ->
  forall x, lookup x (object w') = after ks (object w) x.
Proof.
  induction 1 as [|k ks Hk Hnd IH]; intros retObject w r w'; simpl.
  - intros [= _ <-] x. symmetry. now apply after_outside.
  - unfold bind.
    destruct (field k retObject w) as [[r1|e] w1] eqn:Hf; [|discriminate].
    intros Hrest x.
    pose proof (build_field_world _ _ _ _ _ _ _ _ _ _ _ _ _ Hf) as Hw1.
    apply build_field_source_return in Hf.
    rewrite (IH _ _ _ _ Hrest x).
    destruct (String.eqb_spec x k) as [->|Hne].
    + rewrite (after_outside _ _ _ Hk).
      now apply lookup_after_round.
    + rewrite (after_cons_other _ _ _ _ Hne).
      apply after_lookup.
      exact (collapsed_at_other this cleanRefs k w w1 x Hw1 Hne).
Qed.

(** The source after a loop that throws: the loop got through the keys
    before the failing one, whose round threw. *)
Lemma build_fields_source_throw ks : NoDup ks -> forall retObject w e w',
  fields ks retObject w = (Throw e, w') ->
  exists before failing rest retObject1 w1,
    ks = (before ++ failing :: rest)%list
    /\ fields before retObject w = (Return retObject1, w1)
    /\ field failing retObject1 w1 = (Throw e, w')
    /\ hasOwnProperty failing (object w) = true
    /\ is_undefined (get failing (object w)) = false
    /\ (forall x, x <> failing ->
                  lookup x (object w') = after before (object w) x)
    /\ (lookup failing (object w') = lookup failing (object w)
        \/ lookup failing (object w')
           = after [failing] (object w) failing).
Proof.
  induction 1 as [|k ks Hk Hnd IH]; intros retObject w e w'; simpl;
    [discriminate|].
  unfold bind.
  destruct (field k retObject w) as [[r1|e1] w1] eqn:Hf.
  - intros Hrest.
    pose proof (build_field_world _ _ _ _ _ _ _ _ _ _ _ _ _ Hf) as Hw1.
    pose proof (build_field_source_return _ _ _ _ _ Hf) as Hsrc.
    destruct (IH _ _ _ _ Hrest)
      as (before & failing & rest & r2 & w2 & -> & Hrun & Hthrow
          & Hown & Hdef & Hx & Hfail).
    assert (Hne : failing <> k).
    { intros ->. apply Hk. apply in_or_app. right. now left. }
    assert (Hl : lookup failing (object w1) = lookup failing (object w))
      by exact (collapsed_at_other this cleanRefs k w w1 failing Hw1 Hne).
    exists (k :: before), failing, rest, r2, w2.
    split; [reflexivity|].
    split; [simpl; unfold bind; now rewrite Hf|].
    split; [exact Hthrow|].
    split; [now rewrite <- (hasOwnProperty_lookup _ _ _ Hl)|].
    split; [now rewrite <- (get_lookup _ _ _ Hl)|].
    split.
    + intros x Hxf. rewrite (Hx x Hxf).
      destruct (String.eqb_spec x k) as [->|Hxk].
      * rewrite after_outside
          by (intros Hin; apply Hk; apply in_or_app; now left).
        now apply lookup_after_round.
      * rewrite (after_cons_other _ _ _ _ Hxk).
        apply after_lookup.
        exact (collapsed_at_other this cleanRefs k w w1 x Hw1 Hxk).
    + rewrite <- Hl, <- (after_lookup [failing] _ _ _ Hl). exact Hfail.
  - intros [= <- <-].
    pose proof (build_field_source_throw _ _ _ _ _ Hf)
      as (Hown & Hdef & Hobj).
    exists [], k, ks, retObject, w. repeat split; auto.
    + intros x Hx. rewrite after_outside by easy.
      destruct Hobj as [->|[_ ->]]; [reflexivity|].
      now apply lookup_set_other.
    + destruct Hobj as [->|[Hc ->]]; [now left|].
      right. rewrite lookup_set_same, after_cons_same, Hc, Hown, Hdef.
      reflexivity.
Qed.

(** C5, as amended.  A failed [build] returns no result object, issues
    no request, and leaves the source with the same own properties; with
    [cleanRefs] unset the source is unchanged, and in every case the
    properties that are not declared as a reference or an array of
    references keep their values.  On a [plain] source the loop has got
    through the declared keys before the one whose round threw: with
    [cleanRefs] set, those the source owns with a defined value have
    been collapsed in place; the failing field is collapsed or as it
    was; every other property is as it was. *)
Theorem failed_build_source w e w' :
  build w = (Throw e, w') ->
  (forall retObject w'', build w <> (Return retObject, w''))
  /\ requests w' = requests w
  /\ (cleanRefs = false -> object w' = object w)
  /\ (forall x, collapses (def_of (_fieldDefs this) x) = false ->
                lookup x (object w') = lookup x (object w))
  /\ (forall x, hasOwnProperty x (object w')
                = hasOwnProperty x (object w))
  /\ (plain (object w) = true ->
      exists before failing rest retObject w1,
        for_in (_fieldDefs this) = (before ++ failing :: rest)%list
        /\ fields before [] w = (Return retObject, w1)
        /\ field failing retObject w1 = (Throw e, w')
        /\ hasOwnProperty failing (object w) = true
        /\ is_undefined (get failing (object w)) = false
        /\ (forall x, x <> failing ->
              lookup x (object w')
              = source_after this cleanRefs before (object w) x)
        /\ (lookup failing (object w') = lookup failing (object w)
            \/ lookup failing (object w')
               = source_after this cleanRefs [failing] (object w) failing)).
Proof.
  intros Hthrow. split; [intros retObject w''; congruence|].
  revert Hthrow. rewrite build_eq.
  destruct (fields (for_in (_fieldDefs this)) [] w) as [[r|e1] w1] eqn:Hf;
    [discriminate|].
  intros [= <- <-].
  pose proof (build_fields_world _ _ _ _ _ _ _ _ _ _ _ _ _ Hf) as Hw.
  assert (Hw' := Hw). destruct Hw' as (Hq & Hsame & Hx).
  repeat split; auto.
  - intros x Hc. destruct (Hx x) as [E|(_ & _ & _ & _ & Hc' & _)];
      [assumption | congruence].
  - intros x. now apply (kept_own this cleanRefs (for_in (_fieldDefs this))).
  - intros _.
    exact (build_fields_source_throw _ (for_in_NoDup _) _ _ _ _ Hf).
Qed.

(** X8.  In a result of [build], [_id] is absent when [removeId] is set
    and is otherwise what the source holds under [_id] once the loop is
    over, whatever the coercion of a declared type: the value the
    source held before the call or, for a declared reference with
    [cleanRefs] set, what that value collapses to.  [_c] and [_u], when
    that value is truthy, likewise. *)
Theorem structural_fields_verbatim w retObject w' :
  build w = (Return retObject, w') ->
  lookup "_id" retObject
  = (if removeId then None
     else Some (held_after this cleanRefs (object w) "_id"))
  /\ (truthy (held_after this cleanRefs (object w) "_c") = true ->
      lookup "_c" retObject
      = Some (held_after this cleanRefs (object w) "_c"))
  /\ (truthy (held_after this cleanRefs (object w) "_u") = true ->
      lookup "_u" retObject
      = Some (held_after this cleanRefs (object w) "_u"))
  /\ (forall x,
        cleanRefs = false \/ collapses (def_of (_fieldDefs this) x) = false ->
        held_after this cleanRefs (object w) x = get x (object w)).
Proof.
  rewrite build_eq.
  destruct (fields (for_in (_fieldDefs this)) [] w) as [[ret|e] w1] eqn:Hf;
    [|discriminate].
  intros [= <- <-].
  assert (Hheld : forall x,
            held_after this cleanRefs (object w) x = get x (object w1)).
  { intros x. unfold held_after, get.
    now rewrite (build_fields_source_return _ (for_in_NoDup _) _ _ _ _ Hf x). }
  rewrite !Hheld. unfold structural.
  repeat split.
  - destruct removeId; [apply lookup_delete_same|].
    destruct (truthy (get "_u" (object w1)));
      destruct (truthy (get "_c" (object w1)));
      rewrite ?lookup_set_other by discriminate; apply lookup_set_same.
  - intros ->.
    assert (H : forall r : obj,
      lookup "_c" (if removeId then delete "_id" r else r) = lookup "_c" r).
    { intros r. destruct removeId; [|reflexivity].
      now apply lookup_delete_other. }
    rewrite H.
    destruct (truthy (get "_u" (object w1)));
      rewrite ?lookup_set_other by discriminate; apply lookup_set_same.
  - intros ->.
    assert (H : forall r : obj,
      lookup "_u" (if removeId then delete "_id" r else r) = lookup "_u" r).
    { intros r. destruct removeId; [|reflexivity].
      now apply lookup_delete_other. }
    rewrite H. apply lookup_set_same.
  - intros x Hx. unfold held_after, source_after, get.
    destruct (cleanRefs && existsb (String.eqb x) (for_in (_fieldDefs this))
              && hasOwnProperty x (object w)
              && negb (is_undefined (match lookup x (object w) with
                                     | Some v => v
                                     | None => VUndefined
                                     end))) eqn:Hflag; [|reflexivity].
    destruct Hx as [Hc|Hc].
    + rewrite Hc in Hflag. discriminate.
    + now rewrite collapsed_value_other.
Qed.

End SourceAfter.

Section SourceInstances.
Import Sample Cases.

Local Abbreviation run := Sample.build.

Lemma failed_build_source_witness :
  exists e w',
    run posts broken false false true = (Throw e, w')
    /\ (forall retObject w'',
          run posts broken false false true <> (Return retObject, w''))
    /\ requests w' = requests (start broken)
    /\ (true = false -> object w' = object (start broken))
    /\ (forall x, collapses (def_of (_fieldDefs posts) x) = false ->
                  lookup x (object w') = lookup x (object (start broken)))
    /\ (forall x, hasOwnProperty x (object w')
                  = hasOwnProperty x (object (start broken)))
    /\ (plain (object (start broken)) = true ->
        exists before failing rest retObject w1,
          for_in (_fieldDefs posts) = (before ++ failing :: rest)%list
          /\ build_fields StringType BooleanType DateType NumberType RefType
               posts false true before [] (start broken)
             = (Return retObject, w1)
          /\ build_field StringType BooleanType DateType NumberType RefType
               posts false true failing retObject w1 = (Throw e, w')
          /\ hasOwnProperty failing (object (start broken)) = true
          /\ is_undefined (get failing (object (start broken))) = false
          /\ (forall x, x <> failing ->
                lookup x (object w')
                = source_after posts true before (object (start broken)) x)
          /\ (lookup failing (object w')
              = lookup failing (object (start broken))
              \/ lookup failing (object w')
                 = source_after posts true [failing]
                     (object (start broken)) failing)).
Proof.
  eexists. eexists. split; [vm_compute; reflexivity|].
  eapply (failed_build_source StringType BooleanType DateType NumberType
            RefType posts false false true (start broken)).
  vm_compute. reflexivity.
Defined.

Lemma structural_fields_verbatim_witness :
  (exists retObject w',
     run tagged [("_id", VStr "t1"); ("title", VStr "hi"); ("_u", VNum 7)]
       false false true = (Return retObject, w')
     /\ lookup "_id" retObject = Some (VStr "t1")
     /\ lookup "_u" retObject = Some (VNum 7))
  /\ (exists retObject w',
        run keyed [("_id", VObj [("_id", VStr "x")])] false false true
        = (Return retObject, w')
        /\ lookup "_id" retObject = Some (VStr "x")).
Proof.
  split.
  - eexists. eexists. split; [vm_compute; reflexivity|].
    destruct (structural_fields_verbatim StringType BooleanType DateType
                NumberType RefType tagged false false true
                (start [("_id", VStr "t1"); ("title", VStr "hi");
                        ("_u", VNum 7)]) _ _ eq_refl)
      as (Hid & _ & Hu & _).
    split; [exact Hid | exact (Hu eq_refl)].
  - eexists. eexists. split; [vm_compute; reflexivity|].
    destruct (structural_fields_verbatim StringType BooleanType DateType
                NumberType RefType keyed false false true
                (start [("_id", VObj [("_id", VStr "x")])]) _ _ eq_refl)
      as (Hid & _).
    exact Hid.
Defined.

Lemma build_returns_iff_accepted_witness :
  plain (object (start liked)) = true
  /\ ((exists retObject,
         run posts liked false false false
         = (Return retObject, start liked))
      <-> forallb (passes StringType BooleanType DateType NumberType RefType
                     posts (object (start liked)))
            (for_in (_fieldDefs posts)) = true).
Proof.
  split; [reflexivity|].
  apply (build_returns_iff_accepted StringType BooleanType DateType
           NumberType RefType posts false false (start liked)).
  reflexivity.
Defined.

End SourceInstances.
